(** * broid-alexa: the Adapter class (src/core/Adapter.ts)

    A shallow embedding of the adapter: its webhook handler, the
    event-emitter it uses to correlate a reply with the HTTP request that is
    waiting for it, the 60 s clean-up timer, [send], [connect],
    [disconnect] and [getRouter].

    JavaScript runs every callback to completion, so the handler, the
    continuation of [send] and the firing of timers are modelled as atomic
    steps of a world that holds the adapter, the clock, the pending timers
    and a log of the calls made on the emitter, on the HTTP responses and on
    the webhook server.

    Outside the class, and taken as given: the validator of @broid/schemas
    (a parameter of [send]), [uuid.v4()] (its result is an argument of the
    constructor and of the handler), express (the router and the response
    objects, of which only the calls are recorded) and the stream that
    [listen] builds on top of the 'message' events.  Logging has no effect
    on the state and is left out. *)

From Stdlib Require Import NArith Ascii Lia.
From stdpp Require Import strings base option list gmap sorting.

Open Scope string_scope.
Open Scope list_scope.
Open Scope N_scope.
Open Scope nat_scope.

(** ** JavaScript strings *)

(** A JavaScript string is a sequence of UTF-16 code units. *)
Abbreviation jsstring := (list N).

(** A string literal of the source, all of them ASCII. *)
Fixpoint js (s : string) : jsstring :=
  match s with
  | EmptyString => []
  | String a s' => N_of_ascii a :: js s'
  end.
Arguments js : simpl never.

(** [String.prototype.startsWith(search)], position 0. *)
Definition startsWith (s search : jsstring) : bool :=
  if length s <? length search then false
  else bool_decide (take (length search) s = search).

(** [String.prototype.endsWith(search)], end position [s.length]. *)
Definition endsWith (s search : jsstring) : bool :=
  if length s <? length search then false
  else bool_decide (drop (length s - length search) s = search).

(** ** JavaScript values, as the JSON body parser delivers them *)

#[warnings="-register-all"]
Inductive JsVal :=
  | VUndefined
  | VNull
  | VBool (b : bool)
  | VNum (bits : N)                      (* IEEE-754 binary64 bit pattern *)
  | VStr (s : jsstring)
  | VArr (items : list JsVal)
  | VObj (fields : list (jsstring * JsVal)).

Definition nullish (v : JsVal) : bool :=
  match v with
  | VUndefined | VNull => true
  | _ => false
  end.

(** Zero (either sign) and NaN are the falsy numbers. *)
Definition num_falsy (bits : N) : bool :=
  let magnitude := (bits mod 2 ^ 63)%N in
  let exponent := (magnitude / 2 ^ 52)%N in
  let mantissa := (magnitude mod 2 ^ 52)%N in
  (magnitude =? 0)%N || ((exponent =? 2047)%N && negb (mantissa =? 0)%N).

(** ToBoolean, as used by [||] and [if]. *)
Definition truthy (v : JsVal) : bool :=
  match v with
  | VUndefined | VNull => false
  | VBool b => b
  | VNum bits => negb (num_falsy bits)
  | VStr s => negb (bool_decide (s = []))
  | VArr _ | VObj _ => true
  end.

Fixpoint own (k : jsstring) (fields : list (jsstring * JsVal)) : JsVal :=
  match fields with
  | [] => VUndefined
  | (k', v) :: rest => if bool_decide (k' = k) then v else own k rest
  end.

(** [v[k]] for a [v] that is neither null nor undefined.  Exact for the
    property names the adapter reads (request, session, type, intent, name,
    slots, application, user): none of them is an index or a built-in
    property of an array, a string, a number or a boolean, and none is
    inherited from Object.prototype. *)
Definition get (v : JsVal) (k : jsstring) : JsVal :=
  match v with
  | VObj fields => own k fields
  | _ => VUndefined
  end.

(** [v.k]: reading a property of null or undefined throws a TypeError,
    which is [None] here. *)
Definition prop (v : JsVal) (k : jsstring) : option JsVal :=
  if nullish v then None else Some (get v k).

(** Ramda's [R.path(paths, obj)]: walks the path and gives [undefined] as
    soon as the value at hand is null or undefined. *)
Fixpoint path (paths : list jsstring) (val : JsVal) : JsVal :=
  match paths with
  | [] => val
  | p :: rest => if nullish val then VUndefined else path rest (get val p)
  end.

(** [a || b] *)
Definition js_or (a b : JsVal) : JsVal := if truthy a then a else b.

(** [v === 'literal'] *)
Definition is_string (v : JsVal) (s : jsstring) : bool :=
  match v with
  | VStr s' => bool_decide (s' = s)
  | _ => false
  end.

(** ** Messages and platform responses *)

(** The object built by the webhook handler and emitted on ['message']. *)
Record Message := {
  application : JsVal;
  intentName : JsVal;
  messageID : jsstring;
  requestType : JsVal;
  slots : JsVal;
  user : JsVal;
}.

(** [{ text, type: 'PlainText' }] or [{ ssml, type: 'SSML' }]. *)
Inductive OutputSpeech :=
  | PlainText (text : jsstring)
  | SSML (ssml : jsstring).

(** [{ content, title, type: 'Simple' }] *)
Record Card := {
  card_content : jsstring;
  card_title : jsstring;
}.

(** [{ response: { card, outputSpeech, shouldEndSession } }] *)
Record Response := {
  card : Card;
  outputSpeech : OutputSpeech;
  shouldEndSession : bool;
}.

(** The argument of [send] once it has the shape the 'send' schema is
    there to enforce:
    [{ to: { id }, object: { type, content, name? } }]. *)
Record SendData := {
  to_id : jsstring;
  object_type : jsstring;
  object_content : jsstring;
  object_name : option jsstring;
}.

Record JsError := { message : jsstring }.

(** Lines 127-137 of [send]. *)
Definition speech (content : jsstring) : OutputSpeech :=
  if startsWith content (js "<speak>") && endsWith content (js "</speak>")
  then SSML content
  else PlainText content.

(** [data.object.name || ''] *)
Definition title_of (name : option jsstring) : jsstring :=
  match name with
  | Some n => if bool_decide (n = []) then js "" else n
  | None => js ""
  end.

(** Lines 124-151 of [send]. *)
Definition build_response (data : SendData) : Response :=
  let content := object_content data in
  {| card := {| card_content := content; card_title := title_of (object_name data) |};
     outputSpeech := speech content;
     shouldEndSession := true |}.

(** Lines 161-177 of the handler; [uuid] is what [uuid.v4()] returns. *)
Definition normalize (body : JsVal) (uuid : jsstring) : option Message :=
  request ← prop body (js "request");
  session ← prop body (js "session");
  requestType ← prop request (js "type");
  let intentName :=
    if is_string requestType (js "IntentRequest")
    then path [js "intent"; js "name"] request
    else requestType in
  application ← prop session (js "application");
  user ← prop session (js "user");
  Some {| application := application;
          intentName := intentName;
          messageID := uuid;
          requestType := requestType;
          slots := js_or (path [js "intent"; js "slots"] request) (VObj []);
          user := user |}.

(** ** The adapter and the world it runs in *)

(** A function value that is attached to the emitter.  Function objects are
    compared by identity: every run of the webhook handler creates a new
    [responseListener] closure, numbered [fn] here, which captures the
    [res] of its request. *)
Inductive Listener :=
  | Subscriber (sub : nat)               (* attached by a subscription to listen() *)
  | ResponseListener (fn : nat) (res : nat).

Global Instance Listener_eq_dec : EqDecision Listener.
Proof. solve_decision. Defined.

(** An element of the emitter's listener array; [once] marks the wrapper
    that [emitter.once] installs. *)
Record Entry := {
  e_fn : Listener;
  e_once : bool;
}.

Inductive Payload :=
  | PMessage (m : Message)
  | PResponse (r : Response).

(** [setTimeout(() => emitter.removeListener(name, fn), ms)], due at [due]. *)
Record Timer := {
  due : N;
  t_name : jsstring;
  t_fn : Listener;
}.

Inductive Method := GET | POST.

(** The express router: the routes on which the handler is mounted. *)
Record Router := { routes : list (Method * jsstring) }.

(** [IAdapterOptions] and its [http] member (./interfaces). *)
Record HTTPOptions := { host : jsstring; port : N }.

Record Options := {
  opt_serviceID : option jsstring;
  opt_logLevel : option jsstring;
  opt_http : option HTTPOptions;
}.

(** [new WebHookServer(obj.http, this.router, this.logLevel)] *)
Record WebHookServer := {
  ws_options : HTTPOptions;
  ws_router : Router;
  ws_logLevel : jsstring;
}.

(** The fields of the class.  [connected] and [webhookServer] are left
    undefined by the constructor, which reads as [false] and [None]. *)
Record Adapter := {
  serviceID : jsstring;
  connected : bool;
  events : gmap jsstring (list Entry);   (* the emitter's listener table *)
  logLevel : jsstring;
  router : Router;
  webhookServer : option WebHookServer;
}.

(** What the adapter calls on the emitter, on the HTTP responses, on the
    timers and on the webhook server, in the order of the calls. *)
Inductive Event :=
  | EvEmit (name : jsstring) (p : Payload)
  | EvCall (l : Listener) (p : Payload)          (* a listener is invoked *)
  | EvOn (name : jsstring) (l : Listener)
  | EvOnce (name : jsstring) (l : Listener)
  | EvRemoveListener (name : jsstring) (l : Listener)
  | EvSetTimeout (ms : N) (name : jsstring) (l : Listener)
  | EvSendStatus (res : nat) (code : N)
  | EvJson (res : nat) (p : Payload)
  | EvServerListen
  | EvServerClose.

Record World := {
  adapter : Adapter;
  now : N;                               (* the clock, in ms *)
  timers : list Timer;                   (* pending, in the order they were set *)
  next_fn : nat;                         (* closures created so far *)
  trace : list Event;
}.

Definition with_adapter (a : Adapter) (w : World) : World :=
  {| adapter := a; now := now w; timers := timers w;
     next_fn := next_fn w; trace := trace w |}.

Definition with_events (ev : gmap jsstring (list Entry)) (a : Adapter) : Adapter :=
  {| serviceID := serviceID a; connected := connected a; events := ev;
     logLevel := logLevel a; router := router a;
     webhookServer := webhookServer a |}.

Definition with_connected (b : bool) (a : Adapter) : Adapter :=
  {| serviceID := serviceID a; connected := b; events := events a;
     logLevel := logLevel a; router := router a;
     webhookServer := webhookServer a |}.

Definition log (e : Event) (w : World) : World :=
  {| adapter := adapter w; now := now w; timers := timers w;
     next_fn := next_fn w; trace := trace w ++ [e] |}.

(** *** The event emitter *)

Definition listeners (name : jsstring) (w : World) : list Entry :=
  default [] (events (adapter w) !! name).

(** The emitter drops a name whose listener array becomes empty. *)
Definition set_listeners (name : jsstring) (es : list Entry) (w : World) : World :=
  let ev := events (adapter w) in
  with_adapter
    (with_events (match es with [] => delete name ev | _ => <[name := es]> ev end)
                 (adapter w)) w.

Definition mentions (l : Listener) (es : list Entry) : bool :=
  existsb (fun e => bool_decide (e_fn e = l)) es.

(** [removeListener] scans the array from its end and splices out the
    first entry that is [l] or a once-wrapper of [l]. *)
Fixpoint remove_last (l : Listener) (es : list Entry) : list Entry :=
  match es with
  | [] => []
  | e :: rest =>
      if bool_decide (e_fn e = l) && negb (mentions l rest) then rest
      else e :: remove_last l rest
  end.

(** [res.json(p)] and [res.sendStatus(code)]: the trace records the call.
    What express does with a second write to a response that was already
    sent is outside this file. *)
Definition json (res : nat) (p : Payload) (w : World) : World :=
  log (EvJson res p) w.

Definition sendStatus (res : nat) (code : N) (w : World) : World :=
  log (EvSendStatus res code) w.

(** Calling a listener.  [responseListener] is [(data) => res.json(data)];
    what a subscriber of ['message'] does with the event is outside this
    file (the stream built by [listen]).  A call is taken to return: a
    listener that throws (as [res.json] of express does on a response
    that was already sent) would end the [emit] there and reject the
    [send] that made it, after the once-wrapper has taken itself out. *)
Definition invoke (l : Listener) (p : Payload) (w : World) : World :=
  match l with
  | Subscriber _ => log (EvCall l p) w
  | ResponseListener _ res => json res p (log (EvCall l p) w)
  end.

(** [emitter.emit(name, p)]: the listeners registered at the time of the
    call are invoked in order; a once-wrapper takes itself out of the table
    before it calls its listener.  No listener of this adapter touches the
    emitter, so the wrappers can be taken out first. *)
Definition emit (name : jsstring) (p : Payload) (w : World) : World :=
  let es := listeners name w in
  let w1 := log (EvEmit name p) w in
  let w2 := set_listeners name (filter (fun e => e_once e = false) es) w1 in
  foldl (fun acc e => invoke (e_fn e) p acc) w2 es.

Definition on (name : jsstring) (l : Listener) (w : World) : World :=
  set_listeners name (listeners name w ++ [{| e_fn := l; e_once := false |}])
    (log (EvOn name l) w).

Definition once (name : jsstring) (l : Listener) (w : World) : World :=
  set_listeners name (listeners name w ++ [{| e_fn := l; e_once := true |}])
    (log (EvOnce name l) w).

Definition removeListener (name : jsstring) (l : Listener) (w : World) : World :=
  set_listeners name (remove_last l (listeners name w))
    (log (EvRemoveListener name l) w).

(** [setTimeout(() => emitter.removeListener(name, l), ms)] *)
Definition setTimeout (ms : N) (name : jsstring) (l : Listener) (w : World) : World :=
  let w1 := log (EvSetTimeout ms name l) w in
  {| adapter := adapter w1; now := now w1;
     timers := timers w1 ++ [{| due := (now w1 + ms)%N; t_name := name; t_fn := l |}];
     next_fn := next_fn w1; trace := trace w1 |}.

(** A new function object. *)
Definition new_fn (w : World) : nat * World :=
  (next_fn w,
   {| adapter := adapter w; now := now w; timers := timers w;
      next_fn := S (next_fn w); trace := trace w |}).

(** *** The class *)

(** [setupRouter]: the handler on GET / and on POST /. *)
Definition setupRouter : Router :=
  {| routes := [(GET, js "/"); (POST, js "/")] |}.

(** [obj && obj.field || fallback] for an optional string field. *)
Definition or_else (field : option jsstring) (fallback : jsstring) : jsstring :=
  match field with
  | Some s => if bool_decide (s = []) then fallback else s
  | None => fallback
  end.

(** The constructor; [uuid] is what [uuid.v4()] would return. *)
Definition new_Adapter (obj : option Options) (uuid : jsstring) : Adapter :=
  let serviceID := or_else (obj ≫= opt_serviceID) uuid in
  let logLevel := or_else (obj ≫= opt_logLevel) (js "info") in
  let router := setupRouter in
  {| serviceID := serviceID;
     connected := false;
     events := ∅;
     logLevel := logLevel;
     router := router;
     webhookServer :=
       match obj ≫= opt_http with
       | Some http =>
           Some {| ws_options := http; ws_router := router; ws_logLevel := logLevel |}
       | None => None
       end |}.

(** The world just after [new Adapter(obj)]. *)
Definition boot (obj : option Options) (uuid : jsstring) : World :=
  {| adapter := new_Adapter obj uuid; now := 0%N; timers := [];
     next_fn := 0; trace := [] |}.

Definition getRouter (a : Adapter) : option Router :=
  match webhookServer a with
  | Some _ => None
  | None => Some (router a)
  end.

Definition serviceId (a : Adapter) : jsstring := serviceID a.

(** [{ type: 'connected', serviceID }] and [{ type: 'sent', serviceID }] *)
Record Info := {
  info_type : jsstring;
  info_serviceID : jsstring;
}.

Definition connect (w : World) : Info * World :=
  if connected (adapter w) then
    ({| info_type := js "connected"; info_serviceID := serviceId (adapter w) |}, w)
  else
    let w := with_adapter (with_connected true (adapter w)) w in
    let w := match webhookServer (adapter w) with
             | Some _ => log EvServerListen w
             | None => w
             end in
    ({| info_type := js "connected"; info_serviceID := serviceId (adapter w) |}, w).

Definition disconnect (w : World) : World :=
  let w := with_adapter (with_connected false (adapter w)) w in
  match webhookServer (adapter w) with
  | Some _ => log EvServerClose w
  | None => w
  end.

(** How a promise settles. *)
Inductive Settled (A : Type) :=
  | Resolved (a : A)
  | Rejected (e : JsError).
Arguments Resolved {A} a.
Arguments Rejected {A} e.

(** The channel of the reply to the request numbered [id]. *)
Definition response_channel (id : jsstring) : jsstring := js "response:" ++ id.
Arguments response_channel : simpl never.

(** The webhook handler (lines 160-189) for the request whose response
    object is [res]; [None] when reading the body throws. *)
Definition handle (res : nat) (body : JsVal) (uuid : jsstring) (w : World)
  : option World :=
  message ← normalize body uuid;
  let '(fn, w) := new_fn w in
  let responseListener := ResponseListener fn res in
  let w := emit (js "message") (PMessage message) w in
  let w := once (response_channel (messageID message)) responseListener w in
  let w := setTimeout 60000 (response_channel (messageID message)) responseListener w in
  Some (sendStatus res 200 w).

(** The clock moves on by [ms]; the timers that are due by then fire, in
    the order they were set (all of them have the same delay). *)
Definition is_due (t : N) (tm : Timer) : bool := (due tm <=? t)%N.

Definition elapse (ms : N) (w : World) : World :=
  let t := (now w + ms)%N in
  let w1 := {| adapter := adapter w; now := t;
               timers := filter (fun tm => is_due t tm = false) (timers w);
               next_fn := next_fn w; trace := trace w |} in
  foldl (fun acc tm => removeListener (t_name tm) (t_fn tm) acc) w1
        (filter (fun tm => is_due t tm = true) (timers w)).

Section Schemas.

(** [schemas(data, 'send')] of @broid/schemas: [None] when the promise
    resolves, the validation error when it rejects. *)
Variable schemas : SendData → jsstring → option JsError.

(** [send], at the time the continuation of the validation runs. *)
Definition send (data : SendData) (w : World) : Settled Info * World :=
  match schemas data (js "send") with
  | Some err => (Rejected err, w)
  | None =>
      if negb (bool_decide (object_type data = js "Note")) then
        (Rejected {| message := js "Only Note is supported." |}, w)
      else
        let to := to_id data in
        let response := build_response data in
        let w := emit (response_channel to) (PResponse response) w in
        (Resolved {| info_type := js "sent"; info_serviceID := serviceId (adapter w) |}, w)
  end.

(** What can happen to an adapter, one callback at a time. *)
Inductive Action :=
  | Request (res : nat) (body : JsVal) (uuid : jsstring)
  | Send (data : SendData)
  | Elapse (ms : N)
  | Subscribe (sub : nat)                (* listen() is subscribed to *)
  | Unsubscribe (sub : nat)
  | Connect
  | Disconnect.

(** A handler that throws leaves the world as it was: it throws before
    its first effect. *)
Definition step (w : World) (a : Action) : World :=
  match a with
  | Request res body uuid => default w (handle res body uuid w)
  | Send data => (send data w).2
  | Elapse ms => elapse ms w
  | Subscribe sub => on (js "message") (Subscriber sub) w
  | Unsubscribe sub => removeListener (js "message") (Subscriber sub) w
  | Connect => (connect w).2
  | Disconnect => disconnect w
  end.

Definition run (w : World) (acts : list Action) : World := foldl step w acts.

End Schemas.

(** ** Reading the trace *)

(** What one call of a listener adds to the trace. *)
Definition invocation (l : Listener) (p : Payload) : list Event :=
  match l with
  | Subscriber _ => [EvCall l p]
  | ResponseListener _ res => [EvCall l p; EvJson res p]
  end.

Fixpoint invocations (p : Payload) (es : list Entry) : list Event :=
  match es with
  | [] => []
  | e :: rest => invocation (e_fn e) p ++ invocations p rest
  end.

(** The events published on the emitter, oldest first. *)
Definition emitted (tr : list Event) : list (jsstring * Payload) :=
  omap (fun e => match e with EvEmit name p => Some (name, p) | _ => None end) tr.

(** The payloads with which the listener [l] was called, oldest first. *)
Definition calls (l : Listener) (tr : list Event) : list Payload :=
  omap (fun e => match e with
                 | EvCall l' p => if decide (l' = l) then Some p else None
                 | _ => None
                 end) tr.

(** What was written to the HTTP response [res], oldest first. *)
Definition writes (res : nat) (tr : list Event) : list Event :=
  omap (fun e => match e with
                 | EvSendStatus r _ | EvJson r _ =>
                     if decide (r = res) then Some e else None
                 | _ => None
                 end) tr.

(** [a] is logged before [b]. *)
Definition precedes (a b : Event) (tr : list Event) : Prop :=
  ∃ i j, i < j ∧ tr !! i = Some a ∧ tr !! j = Some b.

(** The entries of a listener array that hold the function [l]. *)
Definition mine (l : Listener) (es : list Entry) : list Entry :=
  filter (fun e => e_fn e = l) es.

(** ** The wording of the specification, for comparison *)

(** WhiteSpace and LineTerminator code units, which [trim] strips. *)
Definition is_space (c : N) : bool :=
  bool_decide (c ∈ [9; 10; 11; 12; 13; 32; 160; 5760; 8232; 8233; 8239;
                    8287; 12288; 65279]%N)
  || ((8192 <=? c)%N && (c <=? 8202)%N).

Fixpoint trimStart (s : jsstring) : jsstring :=
  match s with
  | c :: rest => if is_space c then trimStart rest else s
  | [] => []
  end.

(** [String.prototype.trim] *)
Definition trim (s : jsstring) : jsstring :=
  reverse (trimStart (reverse (trimStart s))).

(** The speech branch as section 4.3 of the specification words it: the
    trimmed text is tested, the raw content is carried. *)
Definition speech_of_trimmed (content : jsstring) : OutputSpeech :=
  if startsWith (trim content) (js "<speak>")
     && endsWith (trim content) (js "</speak>")
  then SSML content
  else PlainText content.

(** ** The life of one registration *)

Global Instance JsError_eq_dec : EqDecision JsError.
Proof. solve_decision. Defined.

(** The action is a [send] that gets as far as emitting on the channel of
    the request numbered [uuid]. *)
Definition delivers (schemas : SendData → jsstring → option JsError)
    (uuid : jsstring) (a : Action) : bool :=
  match a with
  | Send data =>
      bool_decide (schemas data (js "send") = None)
      && bool_decide (object_type data = js "Note")
      && bool_decide (to_id data = uuid)
  | _ => false
  end.

(** The time that passes during a schedule. *)
Fixpoint elapsed (acts : list Action) : N :=
  match acts with
  | [] => 0%N
  | Elapse ms :: rest => (ms + elapsed rest)%N
  | _ :: rest => elapsed rest
  end.

(** The closure [fn] of the request [uuid] is registered, once, under the
    channel of that request and nowhere else, and its timer, due at [T],
    has not fired. *)
Record awaiting (fn res : nat) (uuid : jsstring) (T : N) (w : World) : Prop := {
  aw_here : mine (ResponseListener fn res) (listeners (response_channel uuid) w)
            = [{| e_fn := ResponseListener fn res; e_once := true |}];
  aw_else : ∀ name, name ≠ response_channel uuid →
            mine (ResponseListener fn res) (listeners name w) = [];
  aw_timer : {| due := T; t_name := response_channel uuid;
                t_fn := ResponseListener fn res |} ∈ timers w;
  aw_due : ∀ tm, tm ∈ timers w → t_fn tm = ResponseListener fn res → due tm = T;
  aw_clock : (now w < T)%N;
  aw_old : fn < next_fn w;
}.

(** The closure [fn] is registered nowhere. *)
Record gone (fn res : nat) (w : World) : Prop := {
  gone_nowhere : ∀ name, mine (ResponseListener fn res) (listeners name w) = [];
  gone_old : fn < next_fn w;
}.

(** Closures are numbered in the order of their creation: the emitter, the
    timers and the trace only know closures that exist. *)
Record wf (w : World) : Prop := {
  wf_listeners : ∀ name e fn res,
    e ∈ listeners name w → e_fn e = ResponseListener fn res → fn < next_fn w;
  wf_timers : ∀ tm fn res,
    tm ∈ timers w → t_fn tm = ResponseListener fn res → fn < next_fn w;
  wf_trace : ∀ fn res p,
    EvCall (ResponseListener fn res) p ∈ trace w → fn < next_fn w;
}.

(** ** Sample inputs *)

(** The request of the scenario of section 8 of the specification. *)
Definition hello_body : JsVal :=
  VObj [(js "request",
         VObj [(js "type", VStr (js "IntentRequest"));
               (js "intent", VObj [(js "name", VStr (js "Hello"));
                                   (js "slots", VObj [])])]);
        (js "session",
         VObj [(js "application", VObj [(js "id", VStr (js "a"))]);
               (js "user", VObj [(js "id", VStr (js "u"))])])].

(** A validator that accepts every command. *)
Definition accept_all : SendData → jsstring → option JsError := fun _ _ => None.

Definition command (to type content : string) : SendData :=
  {| to_id := js to; object_type := js type; object_content := js content;
     object_name := None |}.

(** An adapter built without options whose first [uuid.v4()] gives "svc". *)
Definition fresh_world : World := boot None (js "svc").

(** ** Invariants of the adapter *)

(** The calls made on the webhook server. *)
Inductive ServerCall := Listen | Close.

Global Instance ServerCall_eq_dec : EqDecision ServerCall.
Proof. solve_decision. Defined.

(** The calls on the webhook server that a trace holds, oldest first. *)
Definition server_calls (tr : list Event) : list ServerCall :=
  omap (fun e => match e with
                 | EvServerListen => Some Listen
                 | EvServerClose => Some Close
                 | _ => None
                 end) tr.

(** No listen is immediately followed by another listen. *)
Definition no_double_listen (cs : list ServerCall) : Prop :=
  ∀ i, cs !! i = Some Listen → cs !! S i ≠ Some Listen.

(** The pending timers are in the order of their due times, which lie in
    the future and at most 60 s ahead. *)
Record timers_ok (w : World) : Prop := {
  tk_sorted : StronglySorted (fun a b => (due a ≤ due b)%N) (timers w);
  tk_window : ∀ tm, tm ∈ timers w → (now w < due tm ≤ now w + 60000)%N;
}.

(** Every closure created so far is either registered nowhere and was
    called at most once, or is still waiting for its reply, was never
    called, and has a timer due within 60 s. *)
Definition tracked (w : World) : Prop :=
  ∀ fn res, fn < next_fn w →
    (gone fn res w ∧ length (calls (ResponseListener fn res) (trace w)) ≤ 1)
    ∨ (∃ uuid T,
         awaiting fn res uuid T w
         ∧ (T ≤ now w + 60000)%N
         ∧ calls (ResponseListener fn res) (trace w) = []).

(** The webhook server is never asked to listen again before it was
    closed, and the flag tells which call was the last. *)
Record server_ok (w : World) : Prop := {
  sv_single : no_double_listen (server_calls (trace w));
  sv_idle : connected (adapter w) = false →
            last (server_calls (trace w)) ≠ Some Listen;
  sv_busy : connected (adapter w) = true → is_Some (webhookServer (adapter w)) →
            last (server_calls (trace w)) = Some Listen;
  sv_none : webhookServer (adapter w) = None → server_calls (trace w) = [];
}.

Definition is_request (a : Action) : bool :=
  match a with
  | Request _ _ _ => true
  | _ => false
  end.

(** A validator in the manner of the 'send' schema of @broid/schemas,
    which asks an Image or a Video for a url: a command of the shape of
    [SendData] has none. *)
Definition url_required : SendData → jsstring → option JsError :=
  fun data _ =>
    if bool_decide (object_type data = js "Image")
       || bool_decide (object_type data = js "Video")
    then Some {| message := js "url is required" |}
    else None.

(** An adapter built with an http option, hence with a webhook server. *)
Definition served_world : World :=
  boot (Some {| opt_serviceID := None; opt_logLevel := None;
                opt_http := Some {| host := js "0.0.0.0"; port := 8080 |} |})
       (js "svc").

(** * Properties *)

(** ** The emitter *)

Lemma listeners_set_listeners name es w name' :
  listeners name' (set_listeners name es w)
  = if decide (name = name') then es else listeners name' w.
Proof.
  unfold listeners, set_listeners; simpl.
  destruct es; case_decide; subst;
    rewrite ?lookup_delete_eq, ?lookup_insert_eq,
            ?lookup_delete_ne, ?lookup_insert_ne by done; done.
Qed.

Lemma invoke_eq l p w :
  invoke l p w
  = {| adapter := adapter w; now := now w; timers := timers w;
       next_fn := next_fn w; trace := trace w ++ invocation l p |}.
Proof.
  destruct l; unfold invoke, json, log; simpl; [done|].
  by rewrite <- app_assoc.
Qed.

Lemma foldl_invoke p es : ∀ w,
  foldl (fun acc e => invoke (e_fn e) p acc) w es
  = {| adapter := adapter w; now := now w; timers := timers w;
       next_fn := next_fn w; trace := trace w ++ invocations p es |}.
Proof.
  induction es as [|e es IH]; intros w; simpl.
  - destruct w; simpl. by rewrite app_nil_r.
  - rewrite IH, invoke_eq; simpl. by rewrite <- app_assoc.
Qed.

Lemma emit_eq name p w :
  emit name p w
  = {| adapter := adapter (set_listeners name
                     (filter (fun e => e_once e = false) (listeners name w)) w);
       now := now w; timers := timers w; next_fn := next_fn w;
       trace := trace w ++ EvEmit name p :: invocations p (listeners name w) |}.
Proof.
  unfold emit. rewrite foldl_invoke. simpl. by rewrite <- app_assoc.
Qed.

Lemma listeners_emit name p w name' :
  listeners name' (emit name p w)
  = if decide (name = name')
    then filter (fun e => e_once e = false) (listeners name w)
    else listeners name' w.
Proof.
  rewrite emit_eq.
  exact (listeners_set_listeners name _ w name').
Qed.

Lemma emitted_app tr1 tr2 : emitted (tr1 ++ tr2) = emitted tr1 ++ emitted tr2.
Proof. apply omap_app. Qed.

Lemma emitted_invocations p es : emitted (invocations p es) = [].
Proof.
  induction es as [|e es IH]; simpl; [done|].
  rewrite emitted_app, IH. by destruct (e_fn e).
Qed.

Lemma emitted_emit name p w :
  emitted (trace (emit name p w)) = emitted (trace w) ++ [(name, p)].
Proof.
  rewrite emit_eq; simpl. rewrite emitted_app; simpl.
  fold (emitted (invocations p (listeners name w))).
  by rewrite emitted_invocations.
Qed.

(** ** Listener arrays *)

Lemma mine_app l es1 es2 : mine l (es1 ++ es2) = mine l es1 ++ mine l es2.
Proof. apply filter_app. Qed.

Lemma mine_nil_iff l es : mine l es = [] ↔ ∀ e, e ∈ es → e_fn e ≠ l.
Proof.
  unfold mine. split.
  - intros Hnil e He Hfn. by eapply (filter_nil_not_elem_of _ es e).
  - intros Hno. apply elem_of_nil_inv. intros e [Hfn He]%list_elem_of_filter.
    by apply (Hno e).
Qed.

Lemma mine_keeps_once l es :
  mine l (filter (fun e => e_once e = false) es)
  = filter (fun e => e_once e = false) (mine l es).
Proof.
  unfold mine. induction es as [|e es IH]; [done|].
  rewrite !filter_cons.
  repeat (case_decide; rewrite ?filter_cons; simpl); congruence.
Qed.

Lemma mentions_mine l es : mentions l es = false ↔ mine l es = [].
Proof.
  unfold mentions, mine. induction es as [|e es IH]; simpl; [done|].
  rewrite filter_cons. case_bool_decide; case_decide; simpl; try done.
Qed.

Lemma mine_remove_last_ne l l' es :
  l' ≠ l → mine l (remove_last l' es) = mine l es.
Proof.
  intros Hne. unfold mine. induction es as [|e es IH]; simpl; [done|].
  case_bool_decide as Hfn; simpl.
  - destruct (mentions l' es); simpl.
    + rewrite !filter_cons, IH. done.
    + rewrite filter_cons_False by congruence. done.
  - rewrite !filter_cons, IH. done.
Qed.

Lemma mine_remove_last_length l es :
  length (mine l (remove_last l es)) = pred (length (mine l es)).
Proof.
  induction es as [|e es IH]; simpl; [done|].
  unfold mine in *. case_bool_decide as Hfn; simpl.
  - destruct (mentions l es) eqn:Hm; simpl.
    + rewrite !filter_cons_True by done. simpl. rewrite IH.
      destruct (filter (λ e0, e_fn e0 = l) es) eqn:Hf; [|done].
      apply mentions_mine in Hf. congruence.
    + rewrite filter_cons_True by done. done.
  - rewrite !filter_cons_False by done. done.
Qed.

Lemma mine_remove_last_nil l l' es :
  mine l es = [] → mine l (remove_last l' es) = [].
Proof.
  intros Hnil. destruct (decide (l' = l)) as [->|Hne].
  - apply length_zero_iff_nil. rewrite mine_remove_last_length, Hnil. done.
  - by rewrite mine_remove_last_ne.
Qed.

Lemma mine_remove_last_single l e es :
  mine l es = [e] → mine l (remove_last l es) = [].
Proof.
  intros He. apply length_zero_iff_nil.
  rewrite mine_remove_last_length, He. done.
Qed.

Lemma elem_of_remove_last l e es : e ∈ remove_last l es → e ∈ es.
Proof.
  induction es as [|e' es IH]; simpl; [done|].
  destruct (_ && _); rewrite ?elem_of_cons; [tauto | intros [->|?]; auto].
Qed.

Lemma calls_app l tr1 tr2 : calls l (tr1 ++ tr2) = calls l tr1 ++ calls l tr2.
Proof. apply omap_app. Qed.

Lemma calls_invocations l p es :
  calls l (invocations p es) = replicate (length (mine l es)) p.
Proof.
  induction es as [|e es IH]; simpl; [done|].
  rewrite calls_app, IH. unfold mine. rewrite filter_cons.
  destruct (e_fn e) eqn:Hfn; unfold calls; simpl;
    repeat case_decide; simpl; congruence.
Qed.

(** ** The operations, one by one *)

Lemma listeners_once name l w name' :
  listeners name' (once name l w)
  = if decide (name = name')
    then listeners name w ++ [{| e_fn := l; e_once := true |}]
    else listeners name' w.
Proof. unfold once. by rewrite listeners_set_listeners. Qed.

Lemma listeners_on name l w name' :
  listeners name' (on name l w)
  = if decide (name = name')
    then listeners name w ++ [{| e_fn := l; e_once := false |}]
    else listeners name' w.
Proof. unfold on. by rewrite listeners_set_listeners. Qed.

Lemma listeners_removeListener name l w name' :
  listeners name' (removeListener name l w)
  = if decide (name = name')
    then remove_last l (listeners name w)
    else listeners name' w.
Proof. unfold removeListener. by rewrite listeners_set_listeners. Qed.

Lemma response_channel_inj u u' :
  response_channel u = response_channel u' → u = u'.
Proof. unfold response_channel. apply app_inv_head. Qed.

Lemma response_channel_message u : response_channel u ≠ js "message".
Proof. unfold response_channel. cbv. congruence. Qed.

Lemma normalize_messageID body uuid m :
  normalize body uuid = Some m → messageID m = uuid.
Proof.
  unfold normalize. intros H.
  repeat match type of H with
         | context [prop ?v ?k] => destruct (prop v k); simpl in H; [|done]
         end.
  injection H as <-. done.
Qed.

(** The handler, effect by effect. *)
Lemma handle_inv res body uuid w w' :
  handle res body uuid w = Some w' →
  ∃ m,
    normalize body uuid = Some m
    ∧ w' = sendStatus res 200
             (setTimeout 60000 (response_channel uuid) (ResponseListener (next_fn w) res)
                (once (response_channel uuid) (ResponseListener (next_fn w) res)
                   (emit (js "message") (PMessage m) (new_fn w).2))).
Proof.
  unfold handle. intros H.
  destruct (normalize body uuid) as [m|] eqn:Hm; simpl in H; [|done].
  apply normalize_messageID in Hm as Hid. rewrite Hid in H.
  injection H as <-. by exists m.
Qed.

Lemma handle_listeners res body uuid w w' name :
  handle res body uuid w = Some w' →
  listeners name w'
  = if decide (response_channel uuid = name)
    then listeners name w
         ++ [{| e_fn := ResponseListener (next_fn w) res; e_once := true |}]
    else if decide (js "message" = name)
         then filter (fun e => e_once e = false) (listeners name w)
         else listeners name w.
Proof.
  intros (m & _ & ->)%handle_inv.
  change (listeners name (once (response_channel uuid)
            (ResponseListener (next_fn w) res)
            (emit (js "message") (PMessage m) (new_fn w).2))
          = if decide (response_channel uuid = name)
            then listeners name w
                 ++ [{| e_fn := ResponseListener (next_fn w) res; e_once := true |}]
            else if decide (js "message" = name)
                 then filter (fun e => e_once e = false) (listeners name w)
                 else listeners name w).
  rewrite listeners_once, !listeners_emit.
  pose proof (response_channel_message uuid).
  repeat case_decide; subst; try done.
Qed.

Lemma handle_frame res body uuid w w' :
  handle res body uuid w = Some w' →
  ∃ m,
    normalize body uuid = Some m
    ∧ now w' = now w
    ∧ next_fn w' = S (next_fn w)
    ∧ timers w'
      = timers w ++ [{| due := (now w + 60000)%N;
                        t_name := response_channel uuid;
                        t_fn := ResponseListener (next_fn w) res |}]
    ∧ trace w'
      = trace w
        ++ EvEmit (js "message") (PMessage m)
           :: invocations (PMessage m) (listeners (js "message") w)
        ++ [EvOnce (response_channel uuid) (ResponseListener (next_fn w) res);
            EvSetTimeout 60000 (response_channel uuid)
                         (ResponseListener (next_fn w) res);
            EvSendStatus res 200]
    ∧ router (adapter w') = router (adapter w)
    ∧ webhookServer (adapter w') = webhookServer (adapter w).
Proof.
  intros (m & Hm & ->)%handle_inv. exists m. split; [done|].
  rewrite emit_eq. simpl.
  repeat split; try done.
  unfold listeners; simpl. rewrite <- !app_assoc. simpl. done.
Qed.

(** Timers that fire, one after the other. *)
Lemma fire_frame tms : ∀ w,
  let w' := foldl (fun acc tm => removeListener (t_name tm) (t_fn tm) acc) w tms in
  now w' = now w ∧ timers w' = timers w ∧ next_fn w' = next_fn w
  ∧ trace w' = trace w ++ ((fun tm => EvRemoveListener (t_name tm) (t_fn tm)) <$> tms)
  ∧ router (adapter w') = router (adapter w)
  ∧ webhookServer (adapter w') = webhookServer (adapter w).
Proof.
  induction tms as [|tm tms IH]; intros w; simpl.
  - rewrite app_nil_r. done.
  - destruct (IH (removeListener (t_name tm) (t_fn tm) w))
      as (-> & -> & -> & -> & -> & ->).
    simpl. rewrite <- app_assoc. repeat split; try done.
Qed.

Lemma fire_sub tms : ∀ w name e,
  e ∈ listeners name
        (foldl (fun acc tm => removeListener (t_name tm) (t_fn tm) acc) w tms) →
  e ∈ listeners name w.
Proof.
  induction tms as [|tm tms IH]; intros w name e; simpl; [done|].
  intros He%IH. rewrite listeners_removeListener in He.
  case_decide; subst; [by eapply elem_of_remove_last | done].
Qed.

Lemma fire_others l tms : ∀ w name,
  (∀ tm, tm ∈ tms → t_fn tm ≠ l) →
  mine l (listeners name
            (foldl (fun acc tm => removeListener (t_name tm) (t_fn tm) acc) w tms))
  = mine l (listeners name w).
Proof.
  induction tms as [|tm tms IH]; intros w name Hno; simpl; [done|].
  rewrite IH by (intros; apply Hno; by right).
  rewrite listeners_removeListener. case_decide; subst; [|done].
  apply mine_remove_last_ne, Hno. by left.
Qed.

Lemma fire_nil l tms : ∀ w name,
  mine l (listeners name w) = [] →
  mine l (listeners name
            (foldl (fun acc tm => removeListener (t_name tm) (t_fn tm) acc) w tms))
  = [].
Proof.
  induction tms as [|tm tms IH]; intros w name Hnil; simpl; [done|].
  apply IH. rewrite listeners_removeListener.
  case_decide; subst; [by apply mine_remove_last_nil | done].
Qed.

Lemma fire_mine l k e0 tms : ∀ w,
  mine l (listeners k w) = [e0] →
  (∃ tm, tm ∈ tms ∧ t_name tm = k ∧ t_fn tm = l) →
  mine l (listeners k
            (foldl (fun acc tm => removeListener (t_name tm) (t_fn tm) acc) w tms))
  = [].
Proof.
  induction tms as [|tm tms IH]; intros w Hone (tm' & Hin & Hk & Hl); simpl.
  - by apply elem_of_nil in Hin.
  - destruct (decide (t_name tm = k ∧ t_fn tm = l)) as [[Hname Hfn]|Hother].
    + apply fire_nil. rewrite listeners_removeListener, Hname, Hfn.
      rewrite decide_True by done. by eapply mine_remove_last_single.
    + apply IH.
      * rewrite listeners_removeListener. case_decide as Hname; [|done].
        rewrite mine_remove_last_ne; [by rewrite Hname|].
        intros Hfn. by apply Hother.
      * apply elem_of_cons in Hin as [->|Hin]; [by destruct Hother|eauto].
Qed.

(** ** [send] *)

Section Send.

Variable schemas : SendData → jsstring → option JsError.

Lemma send_note data w :
  schemas data (js "send") = None →
  object_type data = js "Note" →
  send schemas data w
  = (Resolved {| info_type := js "sent"; info_serviceID := serviceID (adapter w) |},
     emit (response_channel (to_id data)) (PResponse (build_response data)) w).
Proof.
  intros Hok Hnote. unfold send. rewrite Hok, Hnote.
  rewrite bool_decide_eq_true_2 by done. simpl.
  by rewrite emit_eq.
Qed.

Lemma send_resolved data w info :
  (send schemas data w).1 = Resolved info →
  schemas data (js "send") = None ∧ object_type data = js "Note".
Proof.
  unfold send. destruct (schemas data (js "send")); [done|].
  destruct (bool_decide_reflect (object_type data = js "Note")); simpl; done.
Qed.

Lemma speech_cases content :
  (speech content = SSML content
   ↔ startsWith content (js "<speak>") = true
     ∧ endsWith content (js "</speak>") = true)
  ∧ (speech content = PlainText content
     ↔ ¬ (startsWith content (js "<speak>") = true
          ∧ endsWith content (js "</speak>") = true)).
Proof.
  unfold speech.
  destruct (startsWith content (js "<speak>")), (endsWith content (js "</speak>"));
    simpl; split; split; intuition congruence.
Qed.

(** The wording of section 4.3 and the code agree on every content that
    has no white space at either end. *)
Lemma speech_agrees_without_padding content :
  trim content = content → speech_of_trimmed content = speech content.
Proof. intros Htrim. unfold speech_of_trimmed. by rewrite Htrim. Qed.

(** C3, as amended: a Note that passes validation is emitted with an
    outputSpeech of type SSML, carrying the raw content in [ssml], exactly
    when the raw content itself (nothing is trimmed) starts with <speak>
    and ends with </speak>; otherwise it is of type PlainText and carries
    the raw content in [text]. *)
Theorem send_classifies_raw_content data w :
  schemas data (js "send") = None →
  object_type data = js "Note" →
  ∃ r,
    emitted (trace (send schemas data w).2)
    = emitted (trace w) ++ [(response_channel (to_id data), PResponse r)]
    ∧ (outputSpeech r = SSML (object_content data)
       ↔ startsWith (object_content data) (js "<speak>") = true
         ∧ endsWith (object_content data) (js "</speak>") = true)
    ∧ (outputSpeech r = PlainText (object_content data)
       ↔ ¬ (startsWith (object_content data) (js "<speak>") = true
            ∧ endsWith (object_content data) (js "</speak>") = true)).
Proof.
  intros Hok Hnote. exists (build_response data).
  rewrite send_note by done. simpl. split.
  - apply emitted_emit.
  - apply speech_cases.
Qed.

(** C7, as amended: a command whose object type is not Note is always
    rejected and leaves the world as it was, nothing being emitted; the
    error is 'Only Note is supported.' when the command has passed
    validation, and the error of the validator, which runs first, when
    it has not. *)
Theorem send_rejects_other_types data w :
  object_type data ≠ js "Note" →
  ∃ err,
    send schemas data w = (Rejected err, w)
    ∧ emitted (trace (send schemas data w).2) = emitted (trace w)
    ∧ (schemas data (js "send") = None →
       err = {| message := js "Only Note is supported." |})
    ∧ (∀ e, schemas data (js "send") = Some e → err = e).
Proof.
  intros Hne. unfold send.
  destruct (schemas data (js "send")) as [err|].
  - exists err. repeat split; [done|]. by intros e [= ->].
  - rewrite bool_decide_eq_false_2 by done. simpl. eexists. done.
Qed.

(** C8: when [send] resolves, the response it has emitted on the channel
    of the recipient has [shouldEndSession] set to [true]. *)
Theorem send_ends_session data w info :
  (send schemas data w).1 = Resolved info →
  ∃ r,
    (send schemas data w).2
    = emit (response_channel (to_id data)) (PResponse r) w
    ∧ emitted (trace (send schemas data w).2)
      = emitted (trace w) ++ [(response_channel (to_id data), PResponse r)]
    ∧ shouldEndSession r = true.
Proof.
  intros Hres. apply send_resolved in Hres as [Hok Hnote].
  exists (build_response data). rewrite send_note by done. simpl.
  split; [done|]. split; [apply emitted_emit | done].
Qed.

End Send.

(** ** [connect] and [getRouter] *)

(** C9: a second [connect] returns the same
    [{ type: 'connected', serviceID }] as the first and leaves the world
    as the first call left it: the flag stays set and the webhook server is
    not asked to listen again. *)
Theorem connect_idempotent w :
  let first := connect w in
  let second := connect first.2 in
  second.1 = {| info_type := js "connected";
                info_serviceID := serviceID (adapter w) |}
  ∧ second.1 = first.1
  ∧ second.2 = first.2
  ∧ connected (adapter first.2) = true.
Proof.
  unfold connect.
  destruct (connected (adapter w)) eqn:Hc; simpl.
  - rewrite Hc. done.
  - destruct (webhookServer (adapter w)); simpl; done.
Qed.

(** ** One step of the world *)

Lemma calls_removals l (tms : list Timer) :
  calls l ((fun tm => EvRemoveListener (t_name tm) (t_fn tm)) <$> tms) = [].
Proof. induction tms as [|tm tms IH]; simpl; done. Qed.

Lemma elapse_frame ms w :
  now (elapse ms w) = (now w + ms)%N
  ∧ next_fn (elapse ms w) = next_fn w
  ∧ timers (elapse ms w)
    = filter (fun tm => is_due (now w + ms) tm = false) (timers w)
  ∧ (∀ l, calls l (trace (elapse ms w)) = calls l (trace w))
  ∧ router (adapter (elapse ms w)) = router (adapter w)
  ∧ webhookServer (adapter (elapse ms w)) = webhookServer (adapter w).
Proof.
  unfold elapse.
  match goal with
  | |- context [foldl ?f ?w1 ?tms] =>
      destruct (fire_frame tms w1) as (-> & -> & -> & -> & -> & ->)
  end.
  simpl. repeat split; try done.
  intros l. by rewrite calls_app, calls_removals, app_nil_r.
Qed.

Lemma mine_other l e : e_fn e ≠ l → mine l [e] = [].
Proof. intros Hne. unfold mine. by rewrite filter_cons_False. Qed.

Lemma mine_self l b : mine l [{| e_fn := l; e_once := b |}] = [{| e_fn := l; e_once := b |}].
Proof. unfold mine. by rewrite filter_cons_True. Qed.

Lemma elem_of_invocations l p p' es :
  EvCall l p' ∈ invocations p es → ∃ e, e ∈ es ∧ e_fn e = l.
Proof.
  induction es as [|e es IH]; simpl; [by intros ?%elem_of_nil|].
  rewrite elem_of_app. intros [Hin|Hin].
  - exists e. split; [by left|].
    destruct (e_fn e); simpl in Hin;
      repeat (apply elem_of_cons in Hin as [Hin|Hin]; [congruence|]);
      by apply elem_of_nil in Hin.
  - destruct (IH Hin) as (e' & ? & ?). exists e'. split; [by right|done].
Qed.

Section Life.

Variable schemas : SendData → jsstring → option JsError.

Lemma send_world data w :
  (send schemas data w).2
  = if bool_decide (schemas data (js "send") = None)
       && bool_decide (object_type data = js "Note")
    then emit (response_channel (to_id data)) (PResponse (build_response data)) w
    else w.
Proof.
  unfold send. destruct (schemas data (js "send")); simpl; [done|].
  by case_bool_decide.
Qed.

Lemma now_step w a :
  now (step schemas w a) = (now w + elapsed [a])%N.
Proof.
  destruct a as [res body uuid|data|ms| | | |]; simpl; rewrite ?N.add_0_r.
  - destruct (handle res body uuid w) as [w'|] eqn:Hh; simpl; [|done].
    by destruct (handle_frame _ _ _ _ _ Hh) as (m & _ & -> & _).
  - rewrite send_world. destruct (_ && _); [|done]. by rewrite emit_eq.
  - apply elapse_frame.
  - done.
  - done.
  - unfold connect. destruct (connected (adapter w)); simpl; [done|].
    by destruct (webhookServer (adapter w)).
  - unfold disconnect. simpl. by destruct (webhookServer (adapter w)).
Qed.

Lemma config_step w a :
  router (adapter (step schemas w a)) = router (adapter w)
  ∧ webhookServer (adapter (step schemas w a)) = webhookServer (adapter w).
Proof.
  destruct a as [res body uuid|data|ms| | | |]; simpl.
  - destruct (handle res body uuid w) as [w'|] eqn:Hh; simpl; [|done].
    by destruct (handle_frame _ _ _ _ _ Hh) as (m & _ & _ & _ & _ & _ & -> & ->).
  - rewrite send_world. destruct (_ && _); [|done]. by rewrite emit_eq.
  - apply elapse_frame.
  - done.
  - done.
  - unfold connect. destruct (connected (adapter w)); simpl; [done|].
    by destruct (webhookServer (adapter w)) eqn:Hws.
  - unfold disconnect. simpl. by destruct (webhookServer (adapter w)) eqn:Hws.
Qed.

Lemma listeners_connect w name :
  listeners name (connect w).2 = listeners name w.
Proof.
  unfold connect. destruct (connected (adapter w)); simpl; [done|].
  by destruct (webhookServer (adapter w)).
Qed.

Lemma listeners_disconnect w name :
  listeners name (disconnect w) = listeners name w.
Proof. unfold disconnect. simpl. by destruct (webhookServer (adapter w)). Qed.

Lemma calls_connect l w : calls l (trace (connect w).2) = calls l (trace w).
Proof.
  unfold connect. destruct (connected (adapter w)); simpl; [done|].
  destruct (webhookServer (adapter w)); simpl; [|done].
  by rewrite calls_app, app_nil_r.
Qed.

Lemma calls_disconnect l w : calls l (trace (disconnect w)) = calls l (trace w).
Proof.
  unfold disconnect. simpl. destruct (webhookServer (adapter w)); simpl; [|done].
  by rewrite calls_app, app_nil_r.
Qed.

Lemma calls_emit l name p w :
  calls l (trace (emit name p w))
  = calls l (trace w) ++ replicate (length (mine l (listeners name w))) p.
Proof.
  rewrite emit_eq. simpl. rewrite calls_app. f_equal.
  change (calls l (invocations p (listeners name w))
          = replicate (length (mine l (listeners name w))) p).
  apply calls_invocations.
Qed.

Lemma calls_handle l res body uuid w w' :
  handle res body uuid w = Some w' →
  ∃ m, calls l (trace w')
       = calls l (trace w)
         ++ replicate (length (mine l (listeners (js "message") w))) (PMessage m).
Proof.
  intros Hh. destruct (handle_frame _ _ _ _ _ Hh) as (m & _ & _ & _ & _ & -> & _).
  exists m. rewrite calls_app. f_equal.
  change (calls l (invocations (PMessage m) (listeners (js "message") w) ++ [
            EvOnce (response_channel uuid) (ResponseListener (next_fn w) res);
            EvSetTimeout 60000 (response_channel uuid) (ResponseListener (next_fn w) res);
            EvSendStatus res 200])
          = replicate (length (mine l (listeners (js "message") w))) (PMessage m)).
  rewrite calls_app, calls_invocations. simpl. by rewrite app_nil_r.
Qed.

Lemma gone_step fn res w a :
  gone fn res w →
  gone fn res (step schemas w a)
  ∧ calls (ResponseListener fn res) (trace (step schemas w a))
    = calls (ResponseListener fn res) (trace w).
Proof.
  intros [Hno Hold].
  destruct a as [res' body uuid|data|ms|sub|sub| |]; simpl.
  - destruct (handle res' body uuid w) as [w'|] eqn:Hh; simpl; [|done].
    destruct (handle_frame _ _ _ _ _ Hh) as (m & _ & _ & Hfn & _).
    split; [split|].
    + intros name. rewrite (handle_listeners _ _ _ _ _ name Hh).
      repeat case_decide; rewrite ?mine_app, ?mine_keeps_once, ?Hno; try done.
      simpl. apply mine_other. simpl. intros [= ? ?]. lia.
    + lia.
    + destruct (calls_handle (ResponseListener fn res) _ _ _ _ _ Hh) as (m' & ->).
      by rewrite Hno, app_nil_r.
  - rewrite send_world. destruct (_ && _); [|done]. split; [split|].
    + intros name. rewrite listeners_emit.
      case_decide; rewrite ?mine_keeps_once, ?Hno; done.
    + by rewrite emit_eq.
    + by rewrite calls_emit, Hno, app_nil_r.
  - destruct (elapse_frame ms w) as (_ & Hfn & _ & Hcalls & _).
    split; [split|].
    + intros name. unfold elapse. apply fire_nil. exact (Hno name).
    + by rewrite Hfn.
    + apply Hcalls.
  - split; [split|].
    + intros name. rewrite listeners_on.
      case_decide; rewrite ?mine_app, ?Hno; done.
    + done.
    + simpl. by rewrite calls_app, app_nil_r.
  - split; [split|].
    + intros name. rewrite listeners_removeListener.
      case_decide; [by apply mine_remove_last_nil | done].
    + done.
    + simpl. by rewrite calls_app, app_nil_r.
  - split; [split|].
    + intros name. by rewrite listeners_connect.
    + unfold connect. destruct (connected (adapter w)); simpl; [done|].
      by destruct (webhookServer (adapter w)).
    + apply calls_connect.
  - split; [split|].
    + intros name. by rewrite listeners_disconnect.
    + unfold disconnect. simpl. by destruct (webhookServer (adapter w)).
    + apply calls_disconnect.
Qed.

Lemma awaiting_step fn res uuid T w a :
  awaiting fn res uuid T w →
  delivers schemas uuid a = false →
  (now w + elapsed [a] < T)%N →
  awaiting fn res uuid T (step schemas w a)
  ∧ calls (ResponseListener fn res) (trace (step schemas w a))
    = calls (ResponseListener fn res) (trace w).
Proof.
  intros Haw Hdel Hlt.
  destruct (Haw) as [Hhere Helse Htimer Hdue Hclock Hold].
  pose proof (response_channel_message uuid) as Hmsg.
  assert (Hmsg_nil : mine (ResponseListener fn res) (listeners (js "message") w) = []).
  { apply Helse. congruence. }
  destruct a as [res' body uuid'|data|ms|sub|sub| |]; simpl in *.
  - destruct (handle res' body uuid' w) as [w'|] eqn:Hh; simpl; [|done].
    destruct (handle_frame _ _ _ _ _ Hh) as (m & _ & Hnow & Hfn & Htm & _).
    assert (Hnew : mine (ResponseListener fn res)
                     [{| e_fn := ResponseListener (next_fn w) res'; e_once := true |}] = []).
    { apply mine_other. simpl. intros [= ? ?]. lia. }
    split; [split|].
    + rewrite (handle_listeners _ _ _ _ _ _ Hh).
      repeat case_decide; try congruence.
      by rewrite mine_app, Hhere, Hnew.
    + intros name Hname. rewrite (handle_listeners _ _ _ _ _ name Hh).
      repeat case_decide;
        rewrite ?mine_app, ?mine_keeps_once, ?Hnew, ?(Helse name Hname); done.
    + rewrite Htm. apply elem_of_app. by left.
    + intros tm Hin Htfn. rewrite Htm in Hin.
      apply elem_of_app in Hin as [Hin|Hin%list_elem_of_singleton]; [by apply Hdue|].
      subst tm. simpl in Htfn. injection Htfn as ? ?. lia.
    + by rewrite Hnow.
    + lia.
    + destruct (calls_handle (ResponseListener fn res) _ _ _ _ _ Hh) as (m' & ->).
      by rewrite Hmsg_nil, app_nil_r.
  - rewrite send_world.
    destruct (bool_decide (schemas data (js "send") = None)
              && bool_decide (object_type data = js "Note")) eqn:Hgate; [|done].
    simpl in Hdel. apply bool_decide_eq_false in Hdel.
    assert (Hch : response_channel (to_id data) ≠ response_channel uuid).
    { intros ?%response_channel_inj. done. }
    split; [split|].
    + rewrite listeners_emit. by rewrite decide_False.
    + intros name Hname. rewrite listeners_emit.
      destruct (decide (response_channel (to_id data) = name)) as [<-|?];
        rewrite ?mine_keeps_once, ?(Helse _ Hname); done.
    + by rewrite emit_eq.
    + intros tm. rewrite emit_eq. apply Hdue.
    + by rewrite emit_eq.
    + by rewrite emit_eq.
    + by rewrite calls_emit, (Helse _ Hch), app_nil_r.
  - rewrite N.add_0_r in Hlt.
    destruct (elapse_frame ms w) as (Hnow & Hfn & Htm & Hcalls & _).
    assert (Hfired : ∀ tm, tm ∈ filter (fun tm => is_due (now w + ms) tm = true) (timers w) →
                           t_fn tm ≠ ResponseListener fn res).
    { intros tm [Hd Hin]%list_elem_of_filter Htfn.
      apply Hdue in Htfn; [|done]. unfold is_due in Hd.
      apply N.leb_le in Hd. lia. }
    split; [split|].
    + unfold elapse. rewrite fire_others by done. exact Hhere.
    + intros name Hname. unfold elapse. rewrite fire_others by done.
      exact (Helse name Hname).
    + rewrite Htm. apply list_elem_of_filter. split; [|done].
      unfold is_due. simpl. apply N.leb_gt. lia.
    + intros tm Hin. rewrite Htm in Hin.
      apply list_elem_of_filter in Hin as [_ Hin]. by apply Hdue.
    + rewrite Hnow. lia.
    + by rewrite Hfn.
    + apply Hcalls.
  - split; [split|]; try done.
    + rewrite listeners_on. by rewrite decide_False.
    + intros name Hname. rewrite listeners_on.
      destruct (decide (js "message" = name)) as [<-|?];
        rewrite ?mine_app, ?(Helse _ Hname); done.
    + simpl. by rewrite calls_app, app_nil_r.
  - split; [split|]; try done.
    + rewrite listeners_removeListener. by rewrite decide_False.
    + intros name Hname. rewrite listeners_removeListener.
      destruct (decide (js "message" = name)) as [<-|?]; [|by apply Helse].
      apply mine_remove_last_nil. by apply Helse.
    + simpl. by rewrite calls_app, app_nil_r.
  - assert (Hfr : timers (connect w).2 = timers w ∧ now (connect w).2 = now w
                  ∧ next_fn (connect w).2 = next_fn w).
    { unfold connect. destruct (connected (adapter w)); simpl; [done|].
      by destruct (webhookServer (adapter w)). }
    destruct Hfr as (Htm & Hnow & Hfn).
    split; [split|]; rewrite ?listeners_connect, ?Htm, ?Hnow, ?Hfn; try done.
    + intros name Hname. rewrite listeners_connect. by apply Helse.
    + apply calls_connect.
  - assert (Hfr : timers (disconnect w) = timers w ∧ now (disconnect w) = now w
                  ∧ next_fn (disconnect w) = next_fn w).
    { unfold disconnect. simpl. by destruct (webhookServer (adapter w)). }
    destruct Hfr as (Htm & Hnow & Hfn).
    split; [split|]; rewrite ?listeners_disconnect, ?Htm, ?Hnow, ?Hfn; try done.
    + intros name Hname. rewrite listeners_disconnect. by apply Helse.
    + apply calls_disconnect.
Qed.

Lemma awaiting_deliver fn res uuid T w data :
  awaiting fn res uuid T w →
  delivers schemas uuid (Send data) = true →
  gone fn res (step schemas w (Send data))
  ∧ calls (ResponseListener fn res) (trace (step schemas w (Send data)))
    = calls (ResponseListener fn res) (trace w) ++ [PResponse (build_response data)].
Proof.
  intros [Hhere Helse Htimer Hdue Hclock Hold] Hdel. simpl in *.
  apply andb_true_iff in Hdel as [Hgate Hto].
  apply bool_decide_eq_true in Hto. subst uuid.
  rewrite send_world, Hgate. split; [split|].
  - intros name. rewrite listeners_emit.
    destruct (decide (response_channel (to_id data) = name)) as [<-|Hname].
    + by rewrite mine_keeps_once, Hhere.
    + apply Helse. congruence.
  - by rewrite emit_eq.
  - by rewrite calls_emit, Hhere.
Qed.

Lemma awaiting_expire fn res uuid T w ms :
  awaiting fn res uuid T w →
  (T ≤ now w + ms)%N →
  gone fn res (elapse ms w)
  ∧ calls (ResponseListener fn res) (trace (elapse ms w))
    = calls (ResponseListener fn res) (trace w).
Proof.
  intros [Hhere Helse Htimer Hdue Hclock Hold] Hle.
  destruct (elapse_frame ms w) as (_ & Hfn & _ & Hcalls & _).
  split; [split|]; [|by rewrite Hfn|apply Hcalls].
  intros name. unfold elapse.
  destruct (decide (name = response_channel uuid)) as [->|Hname].
  - eapply fire_mine; [exact Hhere|].
    exists {| due := T; t_name := response_channel uuid;
              t_fn := ResponseListener fn res |}.
    split; [|done].
    apply list_elem_of_filter. split; [|done].
    unfold is_due. simpl. apply N.leb_le. lia.
  - apply fire_nil. exact (Helse name Hname).
Qed.

(** ** Schedules *)

Lemma run_cons w a acts :
  run schemas w (a :: acts) = run schemas (step schemas w a) acts.
Proof. done. Qed.

Lemma elapsed_cons a acts : elapsed (a :: acts) = (elapsed [a] + elapsed acts)%N.
Proof. destruct a; simpl; lia. Qed.

Lemma gone_run fn res acts : ∀ w,
  gone fn res w →
  gone fn res (run schemas w acts)
  ∧ calls (ResponseListener fn res) (trace (run schemas w acts))
    = calls (ResponseListener fn res) (trace w).
Proof.
  induction acts as [|a acts IH]; intros w Hg; [done|].
  rewrite run_cons. destruct (gone_step _ _ _ a Hg) as [Hg' <-]. by apply IH.
Qed.

Lemma awaiting_run fn res uuid T acts : ∀ w,
  awaiting fn res uuid T w →
  Forall (fun a => delivers schemas uuid a = false) acts →
  calls (ResponseListener fn res) (trace (run schemas w acts))
  = calls (ResponseListener fn res) (trace w)
  ∧ ((now w + elapsed acts < T)%N → awaiting fn res uuid T (run schemas w acts))
  ∧ ((T ≤ now w + elapsed acts)%N → gone fn res (run schemas w acts)).
Proof.
  induction acts as [|a acts IH]; intros w Haw Hno.
  - simpl. rewrite N.add_0_r. split; [done|]. split; [done|].
    intros Hle. pose proof (aw_clock _ _ _ _ _ Haw). lia.
  - apply Forall_cons in Hno as [Ha Hno].
    rewrite run_cons, elapsed_cons.
    destruct (decide (now w + elapsed [a] < T)%N) as [Hlt|Hge].
    + destruct (awaiting_step _ _ _ _ _ _ Haw Ha Hlt) as [Haw' <-].
      destruct (IH _ Haw' Hno) as (Hcalls & Hstay & Hleave).
      rewrite now_step in Hstay, Hleave.
      split; [done|]. split; intros ?; [apply Hstay|apply Hleave]; lia.
    + destruct a as [| |ms| | | |]; simpl in Hge;
        try (pose proof (aw_clock _ _ _ _ _ Haw); lia).
      rewrite N.add_0_r in Hge.
      destruct (awaiting_expire _ _ _ _ _ ms Haw) as [Hg <-]; [lia|].
      destruct (gone_run _ _ acts _ Hg) as [Hg' Hcalls].
      split; [done|]. split; [|done].
      intros Hlt. simpl in Hlt. lia.
Qed.

(** ** Closures are numbered in the order of their creation *)

Lemma wf_boot obj uuid : wf (boot obj uuid).
Proof.
  split; simpl.
  - intros name e fn res. unfold listeners. simpl. rewrite lookup_empty. simpl.
    by intros ?%elem_of_nil.
  - intros tm fn res. by intros ?%elem_of_nil.
  - intros fn res p. by intros ?%elem_of_nil.
Qed.

Lemma wf_grow w w' :
  wf w →
  next_fn w ≤ next_fn w' →
  (∀ name e, e ∈ listeners name w' →
     e ∈ listeners name w
     ∨ ∀ fn res, e_fn e = ResponseListener fn res → fn < next_fn w') →
  (∀ tm, tm ∈ timers w' →
     tm ∈ timers w
     ∨ ∀ fn res, t_fn tm = ResponseListener fn res → fn < next_fn w') →
  (∀ fn res p, EvCall (ResponseListener fn res) p ∈ trace w' →
     EvCall (ResponseListener fn res) p ∈ trace w
     ∨ ∃ name e, e ∈ listeners name w ∧ e_fn e = ResponseListener fn res) →
  wf w'.
Proof.
  intros [Hl Ht Hc] Hle Hl' Ht' Hc'. split.
  - intros name e fn res [Hin|Hnew]%Hl' Heq.
    + eapply Nat.lt_le_trans; [by eapply Hl|done].
    + by eapply Hnew.
  - intros tm fn res [Hin|Hnew]%Ht' Heq.
    + eapply Nat.lt_le_trans; [by eapply Ht|done].
    + by eapply Hnew.
  - intros fn res p [Hin|(name & e & Hin & Hfn)]%Hc'.
    + eapply Nat.lt_le_trans; [by eapply Hc|done].
    + eapply Nat.lt_le_trans; [by eapply Hl|done].
Qed.

Lemma elapse_trace ms w :
  trace (elapse ms w)
  = trace w ++ ((fun tm => EvRemoveListener (t_name tm) (t_fn tm))
                  <$> filter (fun tm => is_due (now w + ms) tm = true) (timers w)).
Proof.
  unfold elapse.
  match goal with
  | |- context [foldl ?f ?w1 ?tms] =>
      destruct (fire_frame tms w1) as (_ & _ & _ & -> & _)
  end.
  done.
Qed.

Lemma wf_step w a : wf w → wf (step schemas w a).
Proof.
  intros Hwf.
  destruct a as [res body uuid|data|ms|sub|sub| |]; simpl.
  - destruct (handle res body uuid w) as [w'|] eqn:Hh; simpl; [|done].
    destruct (handle_frame _ _ _ _ _ Hh) as (m & _ & _ & Hfn & Htm & Htr & _).
    apply (wf_grow w); [done|lia| | |].
    + intros name e. rewrite (handle_listeners _ _ _ _ _ name Hh), Hfn.
      repeat case_decide.
      * rewrite elem_of_app, list_elem_of_singleton. intros [?| ->]; [eauto|].
        right. simpl. intros fn res' [= <- _]. lia.
      * intros [_ ?]%list_elem_of_filter. eauto.
      * eauto.
    + intros tm. rewrite Htm, Hfn, elem_of_app, list_elem_of_singleton.
      intros [?| ->]; [eauto|].
      right. simpl. intros fn res' [= <- _]. lia.
    + intros fn res' p. rewrite Htr, elem_of_app, elem_of_cons, elem_of_app.
      intros [?|[?|[Hin|Hin]]]; [by left|done| |].
      * right. apply elem_of_invocations in Hin as (e & ? & ?). eauto.
      * repeat (apply elem_of_cons in Hin as [Hin|Hin]; [done|]).
        by apply elem_of_nil in Hin.
  - rewrite send_world. destruct (_ && _); [|done].
    apply (wf_grow w); [done|by rewrite emit_eq| | |].
    + intros name e. rewrite listeners_emit. case_decide; [|eauto].
      subst. intros [_ ?]%list_elem_of_filter. eauto.
    + intros tm. rewrite emit_eq. eauto.
    + intros fn res p. rewrite emit_eq. simpl.
      rewrite elem_of_app, elem_of_cons.
      intros [?|[?|Hin]]; [by left|done|].
      right. apply elem_of_invocations in Hin as (e & ? & ?). eauto.
  - destruct (elapse_frame ms w) as (_ & Hfn & Htm & _).
    apply (wf_grow w); [done|by rewrite Hfn| | |].
    + intros name e He. left. unfold elapse in He. by apply fire_sub in He.
    + intros tm. rewrite Htm. intros [_ ?]%list_elem_of_filter. eauto.
    + intros fn res p. rewrite elapse_trace, elem_of_app.
      intros [?|Hin]; [by left|].
      apply list_elem_of_fmap in Hin as (tm & ? & _). done.
  - apply (wf_grow w); [done|done| | |].
    + intros name e. rewrite listeners_on. case_decide; [|eauto].
      subst. rewrite elem_of_app, list_elem_of_singleton.
      intros [?| ->]; [eauto|].
      right. simpl. intros fn res. done.
    + eauto.
    + intros fn res p. simpl. rewrite elem_of_app, list_elem_of_singleton.
      intros [?|?]; [by left|done].
  - apply (wf_grow w); [done|done| | |].
    + intros name e. rewrite listeners_removeListener. case_decide; [|eauto].
      subst. intros ?%elem_of_remove_last. eauto.
    + eauto.
    + intros fn res p. simpl. rewrite elem_of_app, list_elem_of_singleton.
      intros [?|?]; [by left|done].
  - apply (wf_grow w); [done| | | |].
    + unfold connect. destruct (connected (adapter w)); simpl; [done|].
      by destruct (webhookServer (adapter w)).
    + intros name e. rewrite listeners_connect. eauto.
    + intros tm. unfold connect. destruct (connected (adapter w)); simpl; [eauto|].
      destruct (webhookServer (adapter w)); eauto.
    + intros fn res p. unfold connect.
      destruct (connected (adapter w)); simpl; [eauto|].
      destruct (webhookServer (adapter w)); simpl; [|eauto].
      rewrite elem_of_app, list_elem_of_singleton.
      intros [?|?]; [by left|done].
  - apply (wf_grow w); [done| | | |].
    + unfold disconnect. simpl. by destruct (webhookServer (adapter w)).
    + intros name e. rewrite listeners_disconnect. eauto.
    + intros tm. unfold disconnect. simpl.
      destruct (webhookServer (adapter w)); eauto.
    + intros fn res p. unfold disconnect. simpl.
      destruct (webhookServer (adapter w)); simpl; [|eauto].
      rewrite elem_of_app, list_elem_of_singleton.
      intros [?|?]; [by left|done].
Qed.

Lemma wf_run acts : ∀ w, wf w → wf (run schemas w acts).
Proof.
  induction acts as [|a acts IH]; intros w Hwf; [done|].
  rewrite run_cons. by apply IH, wf_step.
Qed.

Lemma calls_never l tr : (∀ p, EvCall l p ∉ tr) → calls l tr = [].
Proof.
  intros Hno. apply elem_of_nil_inv. intros p Hin.
  apply list_elem_of_omap in Hin as (e & He & Hp).
  destruct e; try done. case_decide; [|done].
  injection Hp as <-. subst. by eapply Hno.
Qed.

Lemma handle_awaiting res body uuid w w' :
  wf w →
  handle res body uuid w = Some w' →
  awaiting (next_fn w) res uuid (now w + 60000) w'
  ∧ calls (ResponseListener (next_fn w) res) (trace w') = [].
Proof.
  intros [Hl Ht Hc] Hh.
  destruct (handle_frame _ _ _ _ _ Hh) as (m & _ & Hnow & Hfn & Htm & _).
  assert (Hfresh : ∀ name,
            mine (ResponseListener (next_fn w) res) (listeners name w) = []).
  { intros name. apply mine_nil_iff. intros e He Heq.
    pose proof (Hl _ _ _ _ He Heq). lia. }
  pose proof (response_channel_message uuid) as Hmsg.
  split; [split|].
  - rewrite (handle_listeners _ _ _ _ _ _ Hh), decide_True by done.
    by rewrite mine_app, Hfresh, mine_self.
  - intros name Hname. rewrite (handle_listeners _ _ _ _ _ name Hh).
    rewrite decide_False by done.
    case_decide; rewrite ?mine_keeps_once, ?Hfresh; done.
  - rewrite Htm, elem_of_app, list_elem_of_singleton. by right.
  - intros tm. rewrite Htm, elem_of_app, list_elem_of_singleton.
    intros [Hin| ->] Heq; [|done].
    pose proof (Ht _ _ _ Hin Heq). lia.
  - rewrite Hnow. lia.
  - lia.
  - destruct (calls_handle (ResponseListener (next_fn w) res) _ _ _ _ _ Hh)
      as (m' & ->).
    rewrite Hfresh, app_nil_r. apply calls_never.
    intros p Hin. pose proof (Hc _ _ _ Hin). lia.
Qed.

Lemma quiet_Forall uuid acts :
  forallb (fun a => negb (delivers schemas uuid a)) acts = true →
  Forall (fun a => delivers schemas uuid a = false) acts.
Proof.
  intros H. apply Forall_forall. intros a Ha.
  rewrite forallb_forall in H. apply negb_true_iff, H.
  by apply list_elem_of_In.
Qed.

Lemma run_app w acts1 acts2 :
  run schemas w (acts1 ++ acts2) = run schemas (run schemas w acts1) acts2.
Proof. apply foldl_app. Qed.

(** ** The correlation of a reply with its request *)

(** C4: the handler of a request registers its closure under the channel
    of the fresh key; when, before 60 s have passed and with no earlier
    delivery on that key, a [send] emits on that channel, the closure is
    called with the response built from that command, and whatever happens
    afterwards (further sends to the key, the timer) it has been called
    exactly once and is registered nowhere. *)
Theorem reply_delivered_once obj u0 pre res body uuid w1 acts1 data acts2 :
  let w := run schemas (boot obj u0) pre in
  let l := ResponseListener (next_fn w) res in
  handle res body uuid w = Some w1 →
  forallb (fun a => negb (delivers schemas uuid a)) acts1 = true →
  (elapsed acts1 < 60000)%N →
  delivers schemas uuid (Send data) = true →
  calls l (trace (run schemas w1 (acts1 ++ [Send data])))
  = [PResponse (build_response data)]
  ∧ calls l (trace (run schemas w1 (acts1 ++ Send data :: acts2)))
    = [PResponse (build_response data)]
  ∧ ∀ name,
      mine l (listeners name (run schemas w1 (acts1 ++ Send data :: acts2))) = [].
Proof.
  intros w l Hh Hquiet%quiet_Forall Hlt Hdel.
  assert (Hwf : wf w) by apply wf_run, wf_boot.
  destruct (handle_awaiting _ _ _ _ _ Hwf Hh) as [Haw Hnone].
  destruct (handle_frame _ _ _ _ _ Hh) as (_ & _ & Hnow & _).
  destruct (awaiting_run _ _ _ _ acts1 _ Haw Hquiet) as (Hcalls & Hstay & _).
  assert (Haw1 : awaiting (next_fn w) res uuid (now w + 60000) (run schemas w1 acts1)).
  { apply Hstay. rewrite Hnow. lia. }
  destruct (awaiting_deliver _ _ _ _ _ _ Haw1 Hdel) as [Hgone Hone].
  fold l in Hone, Hcalls, Hnone. rewrite Hcalls, Hnone in Hone. simpl in Hone.
  destruct (gone_run _ _ acts2 _ Hgone) as [Hgone2 Hsame].
  fold l in Hsame.
  rewrite !run_app, !run_cons.
  split; [exact Hone|]. split; [by rewrite Hsame|].
  apply Hgone2.
Qed.

(** C5: as long as no [send] emits on the channel of the key, the closure
    registered by the handler is never called; it stays registered while
    less than 60 s have passed and is registered nowhere once 60 s have
    passed. *)
Theorem unanswered_registration_expires obj u0 pre res body uuid w1 acts :
  let w := run schemas (boot obj u0) pre in
  let l := ResponseListener (next_fn w) res in
  handle res body uuid w = Some w1 →
  forallb (fun a => negb (delivers schemas uuid a)) acts = true →
  calls l (trace (run schemas w1 acts)) = []
  ∧ ((elapsed acts < 60000)%N →
     mine l (listeners (response_channel uuid) (run schemas w1 acts))
     = [{| e_fn := l; e_once := true |}])
  ∧ ((60000 ≤ elapsed acts)%N →
     ∀ name, mine l (listeners name (run schemas w1 acts)) = []).
Proof.
  intros w l Hh Hquiet%quiet_Forall.
  assert (Hwf : wf w) by apply wf_run, wf_boot.
  destruct (handle_awaiting _ _ _ _ _ Hwf Hh) as [Haw Hnone].
  destruct (handle_frame _ _ _ _ _ Hh) as (_ & _ & Hnow & _).
  destruct (awaiting_run _ _ _ _ acts _ Haw Hquiet) as (Hcalls & Hstay & Hleave).
  fold l in Hcalls, Hnone. rewrite Hnow in Hstay, Hleave.
  split; [by rewrite Hcalls|]. split.
  - intros Hlt. apply Hstay. lia.
  - intros Hge. apply Hleave. lia.
Qed.

Lemma config_run acts : ∀ w,
  router (adapter (run schemas w acts)) = router (adapter w)
  ∧ webhookServer (adapter (run schemas w acts)) = webhookServer (adapter w).
Proof.
  induction acts as [|a acts IH]; intros w; [done|].
  rewrite run_cons. destruct (IH (step schemas w a)) as [-> ->].
  apply config_step.
Qed.

(** C10: whatever has happened since the construction, [getRouter] gives
    null when the adapter was built with an http option, which is when it
    has a webhook server of its own, and the router with the handler on
    GET / and POST / otherwise. *)
Theorem getRouter_null_iff_http obj uuid acts :
  getRouter (adapter (run schemas (boot obj uuid) acts))
  = match obj ≫= opt_http with
    | Some _ => None
    | None => Some setupRouter
    end
  ∧ (is_Some (webhookServer (adapter (run schemas (boot obj uuid) acts)))
     ↔ is_Some (obj ≫= opt_http)).
Proof.
  unfold getRouter.
  destruct (config_run acts (boot obj uuid)) as [-> ->]. simpl.
  destruct (obj ≫= opt_http); simpl; split; done.
Qed.

Lemma invocations_app p es1 es2 :
  invocations p (es1 ++ es2) = invocations p es1 ++ invocations p es2.
Proof.
  induction es1 as [|e es1 IH]; simpl; [done|]. by rewrite IH, app_assoc.
Qed.

(** X15: the acknowledgement and the reply land on the same response: when a
    [send] emits on the channel of a request right after its handler has
    run, the trace holds the [sendStatus] of the handler and, later, the
    [json] of the listener, both on [res]. *)
Lemma reply_follows_acknowledgement res body uuid w w1 data :
  handle res body uuid w = Some w1 →
  delivers schemas uuid (Send data) = true →
  ∃ t1 t2,
    trace (step schemas w1 (Send data))
    = t1 ++ EvSendStatus res 200
         :: t2 ++ [EvJson res (PResponse (build_response data))].
Proof.
  intros Hh Hdel. simpl in *.
  apply andb_true_iff in Hdel as [Hgate Hto].
  apply bool_decide_eq_true in Hto. subst uuid.
  destruct (handle_frame _ _ _ _ _ Hh) as (m & _ & _ & _ & _ & Htr & _).
  rewrite send_world, Hgate, emit_eq. simpl.
  rewrite (handle_listeners _ _ _ _ _ _ Hh), decide_True by done.
  rewrite invocations_app, Htr. simpl.
  exists (trace w ++ EvEmit (js "message") (PMessage m)
            :: invocations (PMessage m) (listeners (js "message") w)
            ++ [EvOnce (response_channel (to_id data)) (ResponseListener (next_fn w) res);
                EvSetTimeout 60000 (response_channel (to_id data))
                             (ResponseListener (next_fn w) res)]),
         (EvEmit (response_channel (to_id data)) (PResponse (build_response data))
            :: invocations (PResponse (build_response data))
                 (listeners (response_channel (to_id data)) w)
            ++ [EvCall (ResponseListener (next_fn w) res)
                       (PResponse (build_response data))]).
  repeat (rewrite <- ?app_assoc; simpl). done.
Qed.

End Life.

(** ** The webhook handler *)

Lemma is_string_true v s : is_string v s = true ↔ v = VStr s.
Proof.
  destruct v; simpl; try (split; [done|congruence]).
  rewrite bool_decide_eq_true. split; congruence.
Qed.

Lemma own_absent k fields : (∀ v, (k, v) ∉ fields) → own k fields = VUndefined.
Proof.
  induction fields as [|[k' v'] fields IH]; intros Hno; simpl; [done|].
  case_bool_decide as Hk.
  - subst. destruct (Hno v'). by left.
  - apply IH. intros v Hin. apply (Hno v). by right.
Qed.

(** C1, as amended: the handler first emits the normalized event on
    'message' (the subscribers are called at that point) and registers
    the response listener under the channel of the fresh key right after
    that, in the same run; then it sets the timer and acknowledges the
    request.  The registration is in place when the handler returns. *)
Theorem handle_publishes_then_registers res body uuid w w' :
  handle res body uuid w = Some w' →
  ∃ m,
    let l := ResponseListener (next_fn w) res in
    let k := response_channel uuid in
    normalize body uuid = Some m
    ∧ trace w'
      = trace w
        ++ EvEmit (js "message") (PMessage m)
           :: invocations (PMessage m) (listeners (js "message") w)
        ++ [EvOnce k l; EvSetTimeout 60000 k l; EvSendStatus res 200]
    ∧ listeners k w' = listeners k w ++ [{| e_fn := l; e_once := true |}].
Proof.
  intros Hh.
  destruct (handle_frame _ _ _ _ _ Hh) as (m & Hm & _ & _ & _ & Htr & _).
  exists m. simpl. split; [done|]. split; [done|].
  rewrite (handle_listeners _ _ _ _ _ _ Hh). by rewrite decide_True.
Qed.

(** C6: for a body whose [request] and [session] are neither null nor
    undefined the handler does not throw and emits an event whose
    [intentName] is the request type when that is not 'IntentRequest', and
    otherwise the [name] of the nested [intent], undefined when the intent
    or its name is missing. *)
Theorem handler_intentName res body uuid request session w :
  prop body (js "request") = Some request →
  nullish request = false →
  prop body (js "session") = Some session →
  nullish session = false →
  ∃ m w',
    handle res body uuid w = Some w'
    ∧ EvEmit (js "message") (PMessage m) ∈ trace w'
    ∧ requestType m = get request (js "type")
    ∧ (requestType m ≠ VStr (js "IntentRequest") → intentName m = requestType m)
    ∧ (requestType m = VStr (js "IntentRequest") →
       let intent := get request (js "intent") in
       (nullish intent = false → intentName m = get intent (js "name"))
       ∧ (nullish intent = true → intentName m = VUndefined)
       ∧ (∀ fields, intent = VObj fields → (∀ v, (js "name", v) ∉ fields) →
          intentName m = VUndefined)).
Proof.
  intros Hreq Hrn Hses Hsn.
  assert (Hm : ∃ m, normalize body uuid = Some m
                    ∧ requestType m = get request (js "type")
                    ∧ intentName m
                      = if is_string (get request (js "type")) (js "IntentRequest")
                        then path [js "intent"; js "name"] request
                        else get request (js "type")).
  { unfold normalize. rewrite Hreq, Hses. simpl.
    unfold prop. rewrite Hrn, Hsn. simpl. eauto. }
  destruct Hm as (m & Hm & Hty & Hname).
  destruct (handle res body uuid w) as [w'|] eqn:Hh.
  2:{ unfold handle in Hh. rewrite Hm in Hh. done. }
  destruct (handle_frame _ _ _ _ _ Hh) as (m' & Hm' & _ & _ & _ & Htr & _).
  assert (m' = m) as -> by congruence.
  exists m, w'. split; [done|]. split.
  { rewrite Htr, elem_of_app, elem_of_cons. right. by left. }
  split; [done|]. rewrite Hname, Hty. split.
  - intros Hne. destruct (is_string _ _) eqn:Hs; [|done].
    by apply is_string_true in Hs.
  - intros Heq. rewrite Heq. simpl.
    rewrite Hrn. split; [|split].
    + by intros ->.
    + by intros ->.
    + intros fields -> Hno. simpl. by apply own_absent.
Qed.

(** ** Worked inputs *)

(** C1, as claimed, fails: for the request of the scenario nothing is
    registered before the event is emitted on 'message'; the emission is
    the first thing the handler does. *)
Lemma registration_does_not_precede_publication :
  is_Some (handle 7 hello_body (js "k1") fresh_world)
  ∧ ∀ w' m l,
      handle 7 hello_body (js "k1") fresh_world = Some w' →
      ¬ precedes (EvOnce (response_channel (js "k1")) l)
                 (EvEmit (js "message") (PMessage m)) (trace w').
Proof.
  split; [by eexists|].
  intros w' m l Hh (i & j & Hlt & Hi & Hj).
  vm_compute in Hh. injection Hh as <-.
  destruct j as [|[|[|[|j]]]]; simpl in Hj; try done. lia.
Qed.

Lemma handle_publishes_then_registers_witness :
  ∃ w', handle 7 hello_body (js "k1") fresh_world = Some w'
  ∧ ∃ m,
      normalize hello_body (js "k1") = Some m
      ∧ trace w'
        = trace fresh_world
          ++ EvEmit (js "message") (PMessage m)
             :: invocations (PMessage m) (listeners (js "message") fresh_world)
          ++ [EvOnce (response_channel (js "k1")) (ResponseListener 0 7);
              EvSetTimeout 60000 (response_channel (js "k1")) (ResponseListener 0 7);
              EvSendStatus 7 200]
      ∧ listeners (response_channel (js "k1")) w'
        = listeners (response_channel (js "k1")) fresh_world
          ++ [{| e_fn := ResponseListener 0 7; e_once := true |}].
Proof.
  eexists. split; [vm_compute; reflexivity|].
  apply (handle_publishes_then_registers 7 hello_body (js "k1") fresh_world).
  vm_compute; reflexivity.
Defined.

(** C2: the handler acknowledges the request with [res.sendStatus(200)]
    and the reply that [send] emits within the minute is written to the
    same response with [res.json]: two responses for one request. *)
Theorem handler_answers_twice :
  writes 7 (trace (run accept_all fresh_world
                     [Request 7 hello_body (js "k1");
                      Send (command "k1" "Note" "hello")]))
  = [EvSendStatus 7 200;
     EvJson 7 (PResponse (build_response (command "k1" "Note" "hello")))].
Proof. vm_compute. reflexivity. Qed.

(** C3, as claimed, fails: the content " <speak>hi</speak>" starts with
    <speak> and ends with </speak> once trimmed, but the response that
    [send] emits for it is PlainText. *)
Lemma trimmed_speak_content_is_plain_text :
  let data := command "k1" "Note" " <speak>hi</speak>" in
  ∃ r,
    emitted (trace (send accept_all data fresh_world).2)
    = [(response_channel (js "k1"), PResponse r)]
    ∧ ¬ (outputSpeech r = SSML (object_content data)
         ↔ startsWith (trim (object_content data)) (js "<speak>") = true
           ∧ endsWith (trim (object_content data)) (js "</speak>") = true)
    ∧ outputSpeech r ≠ speech_of_trimmed (object_content data).
Proof.
  cbv zeta. eexists. split; [vm_compute; reflexivity|]. split.
  - intros [_ H]. specialize (H (conj eq_refl eq_refl)). vm_compute in H. done.
  - vm_compute. discriminate.
Qed.

Lemma send_classifies_raw_content_witness :
  let data := command "k1" "Note" "<speak>hi</speak>" in
  accept_all data (js "send") = None
  ∧ object_type data = js "Note"
  ∧ ∃ r,
      emitted (trace (send accept_all data fresh_world).2)
      = emitted (trace fresh_world)
        ++ [(response_channel (to_id data), PResponse r)]
      ∧ (outputSpeech r = SSML (object_content data)
         ↔ startsWith (object_content data) (js "<speak>") = true
           ∧ endsWith (object_content data) (js "</speak>") = true)
      ∧ (outputSpeech r = PlainText (object_content data)
         ↔ ¬ (startsWith (object_content data) (js "<speak>") = true
              ∧ endsWith (object_content data) (js "</speak>") = true)).
Proof.
  split; [vm_compute; reflexivity|]. split; [vm_compute; reflexivity|].
  apply (send_classifies_raw_content accept_all); vm_compute; reflexivity.
Defined.

Lemma reply_delivered_once_witness :
  let w := run accept_all (boot None (js "svc")) [] in
  let l := ResponseListener (next_fn w) 7 in
  let w1 := default w (handle 7 hello_body (js "k1") w) in
  let acts1 := [Elapse 59999] in
  let data := command "k1" "Note" "hello" in
  let acts2 := [Send (command "k1" "Note" "again"); Elapse 1] in
  handle 7 hello_body (js "k1") w = Some w1
  ∧ forallb (fun a => negb (delivers accept_all (js "k1") a)) acts1 = true
  ∧ (elapsed acts1 < 60000)%N
  ∧ delivers accept_all (js "k1") (Send data) = true
  ∧ calls l (trace (run accept_all w1 (acts1 ++ [Send data])))
    = [PResponse (build_response data)]
  ∧ calls l (trace (run accept_all w1 (acts1 ++ Send data :: acts2)))
    = [PResponse (build_response data)]
  ∧ ∀ name,
      mine l (listeners name (run accept_all w1 (acts1 ++ Send data :: acts2))) = [].
Proof.
  cbv zeta.
  split; [vm_compute; reflexivity|]. split; [vm_compute; reflexivity|]. split; [vm_compute; reflexivity|].
  split; [vm_compute; reflexivity|].
  apply (reply_delivered_once accept_all None (js "svc") [] 7 hello_body (js "k1"));
    vm_compute; reflexivity.
Defined.

Lemma unanswered_registration_expires_witness :
  let w := run accept_all (boot None (js "svc")) [] in
  let l := ResponseListener (next_fn w) 7 in
  let w1 := default w (handle 7 hello_body (js "k1") w) in
  let acts := [Send (command "k2" "Note" "hello"); Elapse 60000] in
  handle 7 hello_body (js "k1") w = Some w1
  ∧ forallb (fun a => negb (delivers accept_all (js "k1") a)) acts = true
  ∧ calls l (trace (run accept_all w1 acts)) = []
  ∧ ((elapsed acts < 60000)%N →
     mine l (listeners (response_channel (js "k1")) (run accept_all w1 acts))
     = [{| e_fn := l; e_once := true |}])
  ∧ ((60000 ≤ elapsed acts)%N →
     ∀ name, mine l (listeners name (run accept_all w1 acts)) = []).
Proof.
  cbv zeta.
  split; [vm_compute; reflexivity|]. split; [vm_compute; reflexivity|].
  apply (unanswered_registration_expires accept_all None (js "svc") [] 7
           hello_body (js "k1"));
    vm_compute; reflexivity.
Defined.

Lemma handler_intentName_witness :
  let request := get hello_body (js "request") in
  let session := get hello_body (js "session") in
  prop hello_body (js "request") = Some request
  ∧ nullish request = false
  ∧ prop hello_body (js "session") = Some session
  ∧ nullish session = false
  ∧ ∃ m w',
      handle 7 hello_body (js "k1") fresh_world = Some w'
      ∧ EvEmit (js "message") (PMessage m) ∈ trace w'
      ∧ requestType m = get request (js "type")
      ∧ (requestType m ≠ VStr (js "IntentRequest") → intentName m = requestType m)
      ∧ (requestType m = VStr (js "IntentRequest") →
         let intent := get request (js "intent") in
         (nullish intent = false → intentName m = get intent (js "name"))
         ∧ (nullish intent = true → intentName m = VUndefined)
         ∧ (∀ fields, intent = VObj fields → (∀ v, (js "name", v) ∉ fields) →
            intentName m = VUndefined)).
Proof.
  cbv zeta.
  split; [vm_compute; reflexivity|]. split; [vm_compute; reflexivity|]. split; [vm_compute; reflexivity|].
  split; [vm_compute; reflexivity|].
  apply (handler_intentName 7 hello_body (js "k1")
           (get hello_body (js "request")) (get hello_body (js "session")));
    vm_compute; reflexivity.
Defined.

(** C7, as claimed, fails: an Image without a url does not pass a
    validator that asks for one, and [send] rejects it with the error of
    the validator, not with 'Only Note is supported.'. *)
Lemma validation_error_comes_first :
  let data := command "k1" "Image" "photo" in
  object_type data ≠ js "Note"
  ∧ send url_required data fresh_world
    = (Rejected {| message := js "url is required" |}, fresh_world)
  ∧ (send url_required data fresh_world).1
    ≠ Rejected {| message := js "Only Note is supported." |}.
Proof.
  cbv zeta. split; [vm_compute; discriminate|].
  split; [vm_compute; reflexivity|]. vm_compute. discriminate.
Qed.

Lemma send_rejects_other_types_witness :
  let data := command "k1" "Image" "photo" in
  object_type data ≠ js "Note"
  ∧ ∃ err,
      send accept_all data fresh_world = (Rejected err, fresh_world)
      ∧ emitted (trace (send accept_all data fresh_world).2)
        = emitted (trace fresh_world)
      ∧ (accept_all data (js "send") = None →
         err = {| message := js "Only Note is supported." |})
      ∧ (∀ e, accept_all data (js "send") = Some e → err = e).
Proof.
  cbv zeta.
  assert (Hne : object_type (command "k1" "Image" "photo") ≠ js "Note").
  { vm_compute. discriminate. }
  split; [exact Hne|].
  apply (send_rejects_other_types accept_all _ fresh_world Hne).
Defined.

Lemma send_ends_session_witness :
  let data := command "k1" "Note" "hello" in
  let info := {| info_type := js "sent"; info_serviceID := js "svc" |} in
  (send accept_all data fresh_world).1 = Resolved info
  ∧ ∃ r,
      (send accept_all data fresh_world).2
      = emit (response_channel (to_id data)) (PResponse r) fresh_world
      ∧ emitted (trace (send accept_all data fresh_world).2)
        = emitted (trace fresh_world)
          ++ [(response_channel (to_id data), PResponse r)]
      ∧ shouldEndSession r = true.
Proof.
  cbv zeta.
  split; [vm_compute; reflexivity|].
  apply (send_ends_session accept_all _ fresh_world
           {| info_type := js "sent"; info_serviceID := js "svc" |}).
  vm_compute; reflexivity.
Defined.

(** * Further properties of the class *)

(** ** What the handler reads from the body *)



(** X2: the event the handler emits carries the fresh key as [messageID],
    the [type] of the request, the [application] and [user] of the
    session as they are, and the [slots] of the intent, replaced by an
    empty object when the intent or its slots are missing or falsy. *)
Theorem handler_event_fields res body uuid w w' :
  handle res body uuid w = Some w' →
  ∃ m,
    let request := get body (js "request") in
    let session := get body (js "session") in
    let found := path [js "intent"; js "slots"] request in
    emitted (trace w') = emitted (trace w) ++ [(js "message", PMessage m)]
    ∧ messageID m = uuid
    ∧ requestType m = get request (js "type")
    ∧ application m = get session (js "application")
    ∧ user m = get session (js "user")
    ∧ slots m = (if truthy found then found else VObj [])
    ∧ (nullish (get request (js "intent")) = true → slots m = VObj []).
Proof.
  intros Hh.
  destruct (handle_frame _ _ _ _ _ Hh) as (m & Hm & _ & _ & _ & Htr & _).
  exists m. cbv zeta. split.
  { rewrite Htr, emitted_app. simpl. f_equal.
    change (emitted (EvEmit (js "message") (PMessage m)
                       :: invocations (PMessage m) (listeners (js "message") w)
                       ++ [EvOnce (response_channel uuid) (ResponseListener (next_fn w) res);
                           EvSetTimeout 60000 (response_channel uuid)
                                        (ResponseListener (next_fn w) res);
                           EvSendStatus res 200])
            = [(js "message", PMessage m)]).
    unfold emitted at 1. simpl. fold (emitted (invocations (PMessage m) (listeners (js "message") w) ++ [EvOnce (response_channel uuid) (ResponseListener (next_fn w) res);
                           EvSetTimeout 60000 (response_channel uuid)
                                        (ResponseListener (next_fn w) res);
                           EvSendStatus res 200])).
    by rewrite emitted_app, emitted_invocations. }
  revert Hm. unfold normalize, prop.
  destruct (nullish body); simpl; [done|].
  destruct (nullish (get body (js "request"))) eqn:Hrn; simpl; [done|].
  destruct (nullish (get body (js "session"))) eqn:Hsn; simpl; [done|].
  intros [= <-]. simpl. unfold js_or.
  repeat split; try done.
  intros ->. done.
Qed.

(** ** The speech branch *)

Lemma startsWith_true s p : startsWith s p = true ↔ ∃ rest, s = p ++ rest.
Proof.
  unfold startsWith. split.
  - destruct (length s <? length p) eqn:Hlen; [done|].
    intros Heq%bool_decide_eq_true. exists (drop (length p) s).
    by rewrite <- Heq at 1; rewrite take_drop.
  - intros [rest ->]. rewrite length_app.
    destruct (Nat.ltb_spec (length p + length rest) (length p)); [lia|].
    apply bool_decide_eq_true. apply take_app_length.
Qed.

Lemma endsWith_true s p : endsWith s p = true ↔ ∃ front, s = front ++ p.
Proof.
  unfold endsWith. split.
  - destruct (length s <? length p) eqn:Hlen; [done|].
    intros Heq%bool_decide_eq_true. exists (take (length s - length p) s).
    by rewrite <- Heq at 2; rewrite take_drop.
  - intros [front ->]. rewrite length_app.
    destruct (Nat.ltb_spec (length front + length p) (length p)); [lia|].
    apply bool_decide_eq_true. apply drop_app_length'. lia.
Qed.

(** The two tags cannot overlap: a string that starts with <speak> and
    ends with </speak> holds both of them in full. *)
Lemma speak_tags_apart rest front :
  js "<speak>" ++ rest = front ++ js "</speak>" →
  ∃ inner, rest = inner ++ js "</speak>".
Proof.
  intros Heq.
  destruct (decide (8 ≤ length rest)) as [Hlong|Hshort].
  - exists (take (length rest - 8) rest).
    assert (Hd : drop (length (js "<speak>" ++ rest) - 8) (js "<speak>" ++ rest)
                 = js "</speak>").
    { rewrite Heq, length_app. apply drop_app_length'.
      change (length (js "</speak>")) with 8. lia. }
    rewrite length_app, drop_app_ge in Hd
      by (change (length (js "<speak>")) with 7; lia).
    change (length (js "<speak>")) with 7 in Hd.
    replace (7 + length rest - 8 - 7) with (length rest - 8) in Hd by lia.
    rewrite <- Hd. by rewrite take_drop.
  - exfalso.
    assert (Hlen : length front + 8 = 7 + length rest).
    { apply (f_equal length) in Heq. rewrite !length_app in Heq.
      change (length (js "<speak>")) with 7 in Heq.
      change (length (js "</speak>")) with 8 in Heq. lia. }
    do 8 (try (destruct rest as [|? rest]; simpl in Hshort, Hlen;
               [ try lia;
                 repeat (destruct front as [|? front]; simpl in Hlen; try lia);
                 vm_compute in Heq; discriminate Heq
               | ])).
    lia.
Qed.

Lemma speech_wrapped content :
  speech content = SSML content
  ↔ ∃ inner, content = js "<speak>" ++ inner ++ js "</speak>".
Proof.
  unfold speech.
  destruct (startsWith content (js "<speak>")) eqn:Hs;
    destruct (endsWith content (js "</speak>")) eqn:He; simpl.
  - apply startsWith_true in Hs as [rest Hs].
    apply endsWith_true in He as [front He].
    split; [intros _|done].
    rewrite Hs in He. destruct (speak_tags_apart _ _ He) as [inner ->].
    by exists inner.
  - split; [done|]. intros [inner Hc].
    assert (endsWith content (js "</speak>") = true); [|congruence].
    apply endsWith_true. exists (js "<speak>" ++ inner). by rewrite <- app_assoc.
  - split; [done|]. intros [inner Hc].
    assert (startsWith content (js "<speak>") = true); [|congruence].
    apply startsWith_true. by exists (inner ++ js "</speak>").
  - split; [done|]. intros [inner Hc].
    assert (startsWith content (js "<speak>") = true); [|congruence].
    apply startsWith_true. by exists (inner ++ js "</speak>").
Qed.

(** X3: the speech of a response is SSML exactly when the content is some
    text, possibly empty, between the opening tag <speak> and the closing
    tag </speak>.  The two tags must both be there in full: a content of
    fewer than 15 code units, the empty one among them, is PlainText. *)
Theorem speech_ssml_iff_wrapped data :
  (outputSpeech (build_response data) = SSML (object_content data)
   ↔ ∃ inner, object_content data = js "<speak>" ++ inner ++ js "</speak>")
  ∧ (length (object_content data) < 15 →
     outputSpeech (build_response data) = PlainText (object_content data)).
Proof.
  simpl. split; [apply speech_wrapped|].
  intros Hshort.
  destruct (speech_cases (object_content data)) as [Hssml Hplain].
  apply Hplain. intros Hboth. apply Hssml, speech_wrapped in Hboth as [inner Hc].
  rewrite Hc, !length_app in Hshort.
  change (length (js "<speak>")) with 7 in Hshort.
  change (length (js "</speak>")) with 8 in Hshort. lia.
Qed.

Section More.

Variable schemas : SendData → jsstring → option JsError.

(** ** How [send] settles *)

(** X4: validation comes first: a command that fails validation is
    rejected with the error of the validator, whatever the type of its
    object; a command that passes with a type other than Note is
    rejected with 'Only Note is supported.'.  Both leave the world as it
    was, nothing being emitted.  [send] resolves for a validated Note
    only. *)
Theorem send_gates data w :
  (∀ e, schemas data (js "send") = Some e →
        send schemas data w = (Rejected e, w))
  ∧ (schemas data (js "send") = None → object_type data ≠ js "Note" →
     send schemas data w
     = (Rejected {| message := js "Only Note is supported." |}, w))
  ∧ (∀ info, (send schemas data w).1 = Resolved info →
             schemas data (js "send") = None ∧ object_type data = js "Note").
Proof.
  split; [|split].
  - intros e He. unfold send. by rewrite He.
  - intros Hok Hne. unfold send. rewrite Hok.
    by rewrite bool_decide_eq_false_2.
  - intros info. apply send_resolved.
Qed.

(** X5: a [send] that resolves gives [{ type: 'sent', serviceID }] with
    the serviceID of the adapter, and the card of the response it has
    emitted carries the raw content and, as its title, the name of the
    object, or the empty string when there is no name. *)
Theorem send_card data w info :
  (send schemas data w).1 = Resolved info →
  ∃ r,
    info = {| info_type := js "sent"; info_serviceID := serviceID (adapter w) |}
    ∧ emitted (trace (send schemas data w).2)
      = emitted (trace w) ++ [(response_channel (to_id data), PResponse r)]
    ∧ card_content (card r) = object_content data
    ∧ card_title (card r) = default [] (object_name data).
Proof.
  intros Hres. pose proof Hres as [Hok Hnote]%send_resolved.
  rewrite send_note in Hres |- * by done. simpl in *.
  injection Hres as <-.
  exists (build_response data). split; [done|]. split; [apply emitted_emit|].
  split; [done|]. simpl.
  destruct (object_name data) as [n|]; simpl; [|done].
  case_bool_decide; by subst.
Qed.

(** X6: a reply for a key under which nothing is registered (never
    registered, already answered or expired) is dropped in silence:
    [send] still resolves as sent, no listener is called, and the
    listener table and the timers are as before. *)
Theorem send_unmatched data w :
  schemas data (js "send") = None →
  object_type data = js "Note" →
  listeners (response_channel (to_id data)) w = [] →
  (send schemas data w).1
  = Resolved {| info_type := js "sent"; info_serviceID := serviceID (adapter w) |}
  ∧ trace (send schemas data w).2
    = trace w ++ [EvEmit (response_channel (to_id data))
                         (PResponse (build_response data))]
  ∧ (∀ name, listeners name (send schemas data w).2 = listeners name w)
  ∧ timers (send schemas data w).2 = timers w.
Proof.
  intros Hok Hnote Hnone. rewrite send_note by done. simpl.
  split; [done|]. split; [|split].
  - rewrite emit_eq. simpl. by rewrite Hnone.
  - intros name. rewrite listeners_emit, Hnone.
    case_decide; [by subst|done].
  - by rewrite emit_eq.
Qed.

(** ** What the handler tells the subscribers *)

(** X7: the handler calls every listener of 'message' with the normalized
    event, once for each time it is subscribed, and a subscriber stays
    subscribed; with no subscriber nobody is called, and the event is not
    kept for a later subscriber. *)
Theorem handler_notifies_subscribers res body uuid w w' :
  handle res body uuid w = Some w' →
  ∃ m,
    normalize body uuid = Some m
    ∧ (∀ l, calls l (trace w')
            = calls l (trace w)
              ++ replicate (length (mine l (listeners (js "message") w))) (PMessage m))
    ∧ (∀ sub, {| e_fn := Subscriber sub; e_once := false |} ∈ listeners (js "message") w →
              {| e_fn := Subscriber sub; e_once := false |} ∈ listeners (js "message") w')
    ∧ (listeners (js "message") w = [] →
       trace w'
       = trace w ++ [EvEmit (js "message") (PMessage m);
                     EvOnce (response_channel uuid) (ResponseListener (next_fn w) res);
                     EvSetTimeout 60000 (response_channel uuid)
                                  (ResponseListener (next_fn w) res);
                     EvSendStatus res 200]).
Proof.
  intros Hh.
  destruct (handle_frame _ _ _ _ _ Hh) as (m & Hm & _ & _ & _ & Htr & _).
  exists m. split; [done|]. split; [|split].
  - intros l. rewrite Htr, calls_app. f_equal.
    change (calls l (invocations (PMessage m) (listeners (js "message") w) ++ [
              EvOnce (response_channel uuid) (ResponseListener (next_fn w) res);
              EvSetTimeout 60000 (response_channel uuid) (ResponseListener (next_fn w) res);
              EvSendStatus res 200])
            = replicate (length (mine l (listeners (js "message") w))) (PMessage m)).
    rewrite calls_app, calls_invocations. simpl. by rewrite app_nil_r.
  - intros sub Hin. rewrite (handle_listeners _ _ _ _ _ _ Hh).
    pose proof (response_channel_message uuid).
    rewrite decide_False, decide_True by done.
    apply list_elem_of_filter. done.
  - intros Hnone. by rewrite Htr, Hnone.
Qed.

(** ** Timers *)

Lemma StronglySorted_filter_due (P : Timer → Prop) `{∀ tm, Decision (P tm)} tms :
  StronglySorted (fun a b => (due a ≤ due b)%N) tms →
  StronglySorted (fun a b => (due a ≤ due b)%N) (filter P tms).
Proof.
  induction tms as [|tm tms IH]; [done|].
  rewrite StronglySorted_cons, filter_cons. intros [Hall Hs].
  case_decide; [|by apply IH].
  apply StronglySorted_cons. split; [|by apply IH].
  apply Forall_forall. intros tm' [_ Hin]%list_elem_of_filter.
  rewrite Forall_forall in Hall. by apply Hall.
Qed.

Lemma timers_ok_step w a : timers_ok w → timers_ok (step schemas w a).
Proof.
  intros [Hs Hw].
  destruct a as [res body uuid|data|ms|sub|sub| |]; simpl.
  - destruct (handle res body uuid w) as [w'|] eqn:Hh; simpl; [|done].
    destruct (handle_frame _ _ _ _ _ Hh) as (m & _ & Hnow & _ & Htm & _).
    split; rewrite Htm, ?Hnow.
    + apply StronglySorted_app. split; [|split; [done|]].
      * intros a b Ha ->%list_elem_of_singleton. simpl. apply Hw in Ha. lia.
      * repeat constructor.
    + intros tm [Hin| ->%list_elem_of_singleton]%elem_of_app; [by apply Hw|].
      simpl. lia.
  - rewrite send_world. destruct (_ && _); [|done].
    split; rewrite emit_eq; simpl; done.
  - destruct (elapse_frame ms w) as (Hnow & _ & Htm & _).
    split; rewrite Htm, ?Hnow.
    + by apply StronglySorted_filter_due.
    + intros tm [Hd Hin]%list_elem_of_filter. apply Hw in Hin.
      unfold is_due in Hd. apply N.leb_gt in Hd. lia.
  - done.
  - done.
  - unfold connect. destruct (connected (adapter w)); simpl; [done|].
    by destruct (webhookServer (adapter w)).
  - unfold disconnect. simpl. by destruct (webhookServer (adapter w)).
Qed.

Lemma timers_ok_boot obj u0 : timers_ok (boot obj u0).
Proof.
  split; simpl; [constructor|]. by intros tm ?%elem_of_nil.
Qed.

Lemma timers_ok_run acts : ∀ w, timers_ok w → timers_ok (run schemas w acts).
Proof.
  induction acts as [|a acts IH]; intros w Hw; [done|].
  rewrite run_cons. by apply IH, timers_ok_step.
Qed.

(** X8: at any time the pending timers are in the order of their due
    times (so firing them in the order they were set is firing them in
    the order they are due), and each of them is due in the future and
    at most 60 s ahead: nothing stays in the timer list for longer. *)
Theorem timers_in_order_and_bounded obj u0 acts :
  let w := run schemas (boot obj u0) acts in
  StronglySorted (fun a b => (due a ≤ due b)%N) (timers w)
  ∧ ∀ tm, tm ∈ timers w → (now w < due tm ≤ now w + 60000)%N.
Proof.
  cbv zeta.
  by destruct (timers_ok_run acts _ (timers_ok_boot obj u0)).
Qed.

(** ** Every closure, at any time *)

Lemma next_fn_step w a :
  next_fn (step schemas w a)
  = match a with
    | Request res body uuid =>
        match handle res body uuid w with
        | Some _ => S (next_fn w)
        | None => next_fn w
        end
    | _ => next_fn w
    end.
Proof.
  destruct a as [res body uuid|data|ms|sub|sub| |]; simpl.
  - destruct (handle res body uuid w) as [w'|] eqn:Hh; simpl; [|done].
    by destruct (handle_frame _ _ _ _ _ Hh) as (m & _ & _ & -> & _).
  - rewrite send_world. destruct (_ && _); [|done]. by rewrite emit_eq.
  - apply elapse_frame.
  - done.
  - done.
  - unfold connect. destruct (connected (adapter w)); simpl; [done|].
    by destruct (webhookServer (adapter w)).
  - unfold disconnect. simpl. by destruct (webhookServer (adapter w)).
Qed.

Lemma fresh_nowhere w fn res name :
  wf w → next_fn w ≤ fn → mine (ResponseListener fn res) (listeners name w) = [].
Proof.
  intros [Hl _ _] Hle. apply mine_nil_iff. intros e He Heq.
  pose proof (Hl _ _ _ _ He Heq). lia.
Qed.

Lemma fresh_uncalled w fn res :
  wf w → next_fn w ≤ fn → calls (ResponseListener fn res) (trace w) = [].
Proof.
  intros [_ _ Hc] Hle. apply calls_never. intros p Hin.
  pose proof (Hc _ _ _ Hin). lia.
Qed.

(** What one step does to a closure that is waiting. *)
Lemma awaiting_next fn res uuid T w a :
  awaiting fn res uuid T w →
  calls (ResponseListener fn res) (trace w) = [] →
  (gone fn res (step schemas w a)
   ∧ length (calls (ResponseListener fn res) (trace (step schemas w a))) ≤ 1
   ∧ (delivers schemas uuid a = true ∨ (T ≤ now w + elapsed [a])%N))
  ∨ (awaiting fn res uuid T (step schemas w a)
     ∧ calls (ResponseListener fn res) (trace (step schemas w a)) = []
     ∧ delivers schemas uuid a = false
     ∧ (now w + elapsed [a] < T)%N).
Proof.
  intros Haw Hnone.
  destruct (delivers schemas uuid a) eqn:Hdel.
  - left. destruct a as [|data| | | | |]; try done.
    destruct (awaiting_deliver _ _ _ _ _ _ _ Haw Hdel) as [Hg Hc].
    rewrite Hc, Hnone. simpl. auto.
  - destruct (decide (now w + elapsed [a] < T)%N) as [Hlt|Hge].
    + right. destruct (awaiting_step _ _ _ _ _ _ _ Haw Hdel Hlt) as [Haw' Hc].
      rewrite Hc. done.
    + left. pose proof (aw_clock _ _ _ _ _ Haw).
      destruct a as [| |ms| | | |]; simpl in Hge; try lia.
      rewrite N.add_0_r in Hge.
      destruct (awaiting_expire _ _ _ _ _ ms Haw) as [Hg Hc]; [lia|].
      simpl. rewrite Hc, Hnone. simpl. split; [done|]. split; [lia|].
      right. lia.
Qed.

Lemma tracked_step w a : wf w → tracked w → tracked (step schemas w a).
Proof.
  intros Hwf Htr fn res Hfn.
  destruct (decide (fn < next_fn w)) as [Hold|Hnew].
  - destruct (Htr fn res Hold) as [[Hg Hlen]|(uuid & T & Haw & HT & Hnone)].
    + left. destruct (gone_step schemas _ _ _ a Hg) as [Hg' ->]. done.
    + destruct (awaiting_next _ _ _ _ _ a Haw Hnone)
        as [(Hg & Hlen & _)|(Haw' & Hc & _ & _)].
      * by left.
      * right. exists uuid, T. split; [done|]. split; [|done].
        rewrite now_step. lia.
  - rewrite next_fn_step in Hfn.
    destruct a as [res0 body uuid| | | | | |]; try lia.
    simpl. destruct (handle res0 body uuid w) as [w'|] eqn:Hh; [|lia].
    assert (fn = next_fn w) as -> by lia. simpl.
    destruct (handle_frame _ _ _ _ _ Hh) as (m & _ & Hnow & Hnext & _).
    destruct (decide (res = res0)) as [->|Hres].
    + right. destruct (handle_awaiting _ _ _ _ _ Hwf Hh) as [Haw Hnone].
      exists uuid, (now w + 60000)%N. rewrite Hnow. done.
    + assert (Hfresh : ∀ name,
                mine (ResponseListener (next_fn w) res) (listeners name w) = []).
      { intros name. apply fresh_nowhere; [done|lia]. }
      left. split; [split|].
      * intros name. rewrite (handle_listeners _ _ _ _ _ name Hh).
        repeat case_decide; rewrite ?mine_app, ?mine_keeps_once, ?Hfresh;
          try done.
        simpl. apply mine_other. simpl. congruence.
      * lia.
      * destruct (calls_handle (ResponseListener (next_fn w) res) _ _ _ _ _ Hh)
          as (m' & ->).
        rewrite Hfresh, app_nil_r. simpl. rewrite (fresh_uncalled w); [simpl; lia|done|lia].
Qed.

Lemma tracked_run acts : ∀ w, wf w → tracked w → tracked (run schemas w acts).
Proof.
  induction acts as [|a acts IH]; intros w Hwf Htr; [done|].
  rewrite run_cons. apply IH; [by apply wf_step|by apply tracked_step].
Qed.

Lemma tracked_boot obj u0 : tracked (boot obj u0).
Proof. intros fn res Hfn. simpl in Hfn. lia. Qed.

(** X9: at-most-once delivery, whatever happens: in no world that the
    adapter can reach has the response listener of any request been
    called more than once (so [res.json] is called at most once for a
    request, however many replies are sent to its key). *)
Theorem response_listener_called_at_most_once obj u0 acts fn res :
  length (calls (ResponseListener fn res)
                (trace (run schemas (boot obj u0) acts))) ≤ 1.
Proof.
  pose proof (wf_run schemas acts _ (wf_boot obj u0)) as Hwf.
  pose proof (tracked_run acts _ (wf_boot obj u0) (tracked_boot obj u0)) as Htr.
  destruct (decide (fn < next_fn (run schemas (boot obj u0) acts))) as [Hold|Hnew].
  - destruct (Htr fn res Hold) as [[_ Hlen]|(uuid & T & _ & _ & ->)]; [done|].
    simpl. lia.
  - rewrite (fresh_uncalled _ fn res Hwf) by lia. simpl. lia.
Qed.

Lemma awaiting_run_out fn res uuid T acts : ∀ w,
  awaiting fn res uuid T w →
  calls (ResponseListener fn res) (trace w) = [] →
  (T ≤ now w + elapsed acts)%N →
  gone fn res (run schemas w acts).
Proof.
  induction acts as [|a acts IH]; intros w Haw Hnone Hle.
  - simpl in Hle. pose proof (aw_clock _ _ _ _ _ Haw). lia.
  - rewrite run_cons.
    destruct (awaiting_next _ _ _ _ _ a Haw Hnone)
      as [(Hg & _ & _)|(Haw' & Hc & _ & Hlt)].
    + by apply gone_run.
    + apply IH; [done|done|].
      rewrite now_step. rewrite elapsed_cons in Hle. lia.
Qed.

Lemma next_fn_quiet acts : ∀ w,
  forallb (fun a => negb (is_request a)) acts = true →
  next_fn (run schemas w acts) = next_fn w.
Proof.
  induction acts as [|a acts IH]; intros w Hq; [done|].
  simpl in Hq. apply andb_true_iff in Hq as [Ha Hq].
  rewrite run_cons, IH, next_fn_step by done.
  by destruct a.
Qed.

(** X10: the table does not leak: once 60 s have passed without a new
    request, whatever else has happened in the meantime, no response
    listener is registered any more; the listeners that remain are
    subscribers of 'message'. *)
Theorem no_response_listener_outlives_its_minute obj u0 pre acts name e :
  let w := run schemas (run schemas (boot obj u0) pre) acts in
  forallb (fun a => negb (is_request a)) acts = true →
  (60000 ≤ elapsed acts)%N →
  e ∈ listeners name w →
  ∃ sub, e_fn e = Subscriber sub.
Proof.
  cbv zeta. intros Hq Hlong He.
  destruct (e_fn e) as [sub|fn res] eqn:Hfn; [by exists sub|]. exfalso.
  set (w0 := run schemas (boot obj u0) pre) in *.
  assert (Hwf0 : wf w0) by apply wf_run, wf_boot.
  assert (Htr0 : tracked w0) by (apply tracked_run; [apply wf_boot|apply tracked_boot]).
  pose proof (wf_run schemas acts _ Hwf0) as Hwf.
  pose proof (wf_listeners _ Hwf _ _ _ _ He Hfn) as Hold.
  rewrite next_fn_quiet in Hold by done.
  assert (Hg : gone fn res (run schemas w0 acts)).
  { destruct (Htr0 fn res Hold) as [[Hg _]|(uuid & T & Haw & HT & Hnone)].
    - by apply gone_run.
    - eapply awaiting_run_out; [done|done|lia]. }
  pose proof (gone_nowhere _ _ _ Hg name) as Hnil.
  rewrite mine_nil_iff in Hnil. by apply (Hnil e).
Qed.

(** X11: a delivery does not cancel the timer of its request: right
    after the reply was delivered within the minute, the timer set by
    the handler is still pending (it fires later and finds nothing to
    remove). *)
Theorem delivery_leaves_timer_pending obj u0 pre res body uuid w1 acts1 data :
  let w := run schemas (boot obj u0) pre in
  handle res body uuid w = Some w1 →
  forallb (fun a => negb (delivers schemas uuid a)) acts1 = true →
  (elapsed acts1 < 60000)%N →
  delivers schemas uuid (Send data) = true →
  {| due := (now w + 60000)%N; t_name := response_channel uuid;
     t_fn := ResponseListener (next_fn w) res |}
  ∈ timers (run schemas w1 (acts1 ++ [Send data])).
Proof.
  cbv zeta. intros Hh Hquiet%quiet_Forall Hlt Hdel.
  set (w := run schemas (boot obj u0) pre) in *.
  assert (Hwf : wf w) by apply wf_run, wf_boot.
  destruct (handle_awaiting _ _ _ _ _ Hwf Hh) as [Haw _].
  destruct (handle_frame _ _ _ _ _ Hh) as (_ & _ & Hnow & _).
  destruct (awaiting_run schemas _ _ _ _ acts1 _ Haw Hquiet) as (_ & Hstay & _).
  assert (Haw1 : awaiting (next_fn w) res uuid (now w + 60000) (run schemas w1 acts1)).
  { apply Hstay. rewrite Hnow. lia. }
  rewrite run_app, run_cons. simpl.
  apply andb_true_iff in Hdel as [Hgate _].
  rewrite send_world, Hgate, emit_eq. simpl.
  apply (aw_timer _ _ _ _ _ Haw1).
Qed.

(** ** The webhook server and the service ID *)

Lemma server_calls_app tr1 tr2 :
  server_calls (tr1 ++ tr2) = server_calls tr1 ++ server_calls tr2.
Proof. apply omap_app. Qed.

Lemma server_calls_invocations p es : server_calls (invocations p es) = [].
Proof.
  induction es as [|e es IH]; simpl; [done|].
  rewrite server_calls_app, IH. by destruct (e_fn e).
Qed.

Lemma server_calls_removals (tms : list Timer) :
  server_calls ((fun tm => EvRemoveListener (t_name tm) (t_fn tm)) <$> tms) = [].
Proof. induction tms as [|tm tms IH]; simpl; done. Qed.

Lemma fire_identity tms : ∀ w,
  connected (adapter (foldl (fun acc tm => removeListener (t_name tm) (t_fn tm) acc)
                            w tms))
  = connected (adapter w)
  ∧ serviceID (adapter (foldl (fun acc tm => removeListener (t_name tm) (t_fn tm) acc)
                              w tms))
    = serviceID (adapter w).
Proof.
  induction tms as [|tm tms IH]; intros w; simpl; [done|].
  by destruct (IH (removeListener (t_name tm) (t_fn tm) w)) as [-> ->].
Qed.

(** The steps other than connect and disconnect leave the flag and the
    webhook server alone. *)
Lemma server_frame w a :
  match a with Connect | Disconnect => False | _ => True end →
  server_calls (trace (step schemas w a)) = server_calls (trace w)
  ∧ connected (adapter (step schemas w a)) = connected (adapter w).
Proof.
  destruct a as [res body uuid|data|ms|sub|sub| |]; simpl; intros Ha; try done.
  - destruct (handle res body uuid w) as [w'|] eqn:Hh; simpl; [|done].
    destruct (handle_frame _ _ _ _ _ Hh) as (m & _ & _ & _ & _ & Htr & _).
    apply handle_inv in Hh as (m' & _ & Hw').
    split; [|by rewrite Hw', emit_eq].
    rewrite Htr, server_calls_app.
    change (server_calls (trace w)
            ++ server_calls
                 (invocations (PMessage m) (listeners (js "message") w) ++ [
                    EvOnce (response_channel uuid) (ResponseListener (next_fn w) res);
                    EvSetTimeout 60000 (response_channel uuid)
                                 (ResponseListener (next_fn w) res);
                    EvSendStatus res 200])
            = server_calls (trace w)).
    rewrite server_calls_app, server_calls_invocations. simpl.
    by rewrite app_nil_r.
  - rewrite send_world. destruct (_ && _); [|done]. rewrite emit_eq. simpl.
    split; [|done]. rewrite server_calls_app.
    change (server_calls (trace w)
            ++ server_calls
                 (invocations (PResponse (build_response data))
                    (listeners (response_channel (to_id data)) w))
            = server_calls (trace w)).
    by rewrite server_calls_invocations, app_nil_r.
  - rewrite elapse_trace, server_calls_app, server_calls_removals, app_nil_r.
    split; [done|].
    unfold elapse. by destruct (fire_identity
      (filter (fun tm => is_due (now w + ms) tm = true) (timers w))
      {| adapter := adapter w; now := (now w + ms)%N;
         timers := filter (fun tm => is_due (now w + ms) tm = false) (timers w);
         next_fn := next_fn w; trace := trace w |}) as [-> _].
  - rewrite server_calls_app. simpl. by rewrite app_nil_r.
  - rewrite server_calls_app. simpl. by rewrite app_nil_r.
Qed.

Lemma no_double_listen_snoc cs c :
  no_double_listen cs →
  (c = Listen → last cs ≠ Some Listen) →
  no_double_listen (cs ++ [c]).
Proof.
  intros Hcs Hlast i Hi HSi.
  destruct (decide (S i < length cs)) as [Hin|Hout].
  - rewrite lookup_app_l in Hi, HSi by lia. by apply (Hcs i).
  - destruct (decide (S i = length cs)) as [Heq|Hne].
    + rewrite lookup_app_l in Hi by lia.
      rewrite lookup_app_r in HSi by lia.
      replace (S i - length cs) with 0 in HSi by lia. simpl in HSi.
      injection HSi as ->. apply Hlast; [done|].
      rewrite last_lookup. by replace (pred (length cs)) with i by lia.
    + apply lookup_lt_Some in HSi. rewrite length_app in HSi. simpl in HSi. lia.
Qed.

Lemma server_ok_boot obj u0 : server_ok (boot obj u0).
Proof.
  split; simpl; done.
Qed.

Lemma server_ok_step w a : server_ok w → server_ok (step schemas w a).
Proof.
  intros [Hs Hi Hb Hn].
  destruct (config_step schemas w a) as [_ Hws].
  destruct a as [res body uuid|data|ms|sub|sub| |];
    try (match goal with
         | |- server_ok (step _ _ ?a) =>
             destruct (server_frame w a I) as (Hc & Hconn)
         end;
         split; rewrite ?Hc, ?Hconn, ?Hws; done).
  - clear Hws. simpl. unfold connect.
    destruct (connected (adapter w)) eqn:Hconn; simpl.
    { split; rewrite ?Hconn; [done|done|auto|done]. }
    specialize (Hi eq_refl).
    destruct (webhookServer (adapter w)) eqn:Hws; simpl.
    + split; simpl; rewrite ?Hws, ?server_calls_app; simpl.
      * by apply no_double_listen_snoc.
      * done.
      * intros _ _. apply last_snoc.
      * done.
    + split; simpl; rewrite ?Hws; done.
  - clear Hws. simpl. unfold disconnect. simpl.
    destruct (webhookServer (adapter w)) eqn:Hws; simpl.
    + split; simpl; rewrite ?Hws, ?server_calls_app; simpl.
      * by apply no_double_listen_snoc.
      * intros _. by rewrite last_snoc.
      * done.
      * done.
    + split; simpl; rewrite ?Hws; try done.
      intros _. by rewrite (Hn eq_refl).
Qed.

Lemma server_ok_run acts : ∀ w, server_ok w → server_ok (run schemas w acts).
Proof.
  induction acts as [|a acts IH]; intros w Hok; [done|].
  rewrite run_cons. by apply IH, server_ok_step.
Qed.

(** X12: in the sequence of the calls made on the webhook server, at any
    time, no listen is immediately followed by another listen: between
    two listens there is a close.  The flag tells the last call: it is
    not a listen while the adapter is not connected, and it is a listen
    while an adapter with a server of its own is connected.  An adapter
    built without an http option never calls a server. *)
Theorem server_never_listens_twice_in_a_row obj u0 acts :
  let w := run schemas (boot obj u0) acts in
  (∀ i, server_calls (trace w) !! i = Some Listen →
        server_calls (trace w) !! S i ≠ Some Listen)
  ∧ (connected (adapter w) = false → last (server_calls (trace w)) ≠ Some Listen)
  ∧ (connected (adapter w) = true → is_Some (obj ≫= opt_http) →
     last (server_calls (trace w)) = Some Listen)
  ∧ (obj ≫= opt_http = None → server_calls (trace w) = []).
Proof.
  cbv zeta.
  destruct (server_ok_run acts _ (server_ok_boot obj u0)) as [Hs Hi Hb Hn].
  destruct (config_run schemas acts (boot obj u0)) as [_ Hws]. simpl in Hws.
  split; [exact Hs|]. split; [done|]. split.
  - intros Hconn Hhttp. apply Hb; [done|]. rewrite Hws.
    destruct Hhttp as [http ->]. by eexists.
  - intros Hhttp. apply Hn. by rewrite Hws, Hhttp.
Qed.

Lemma serviceID_step w a :
  serviceID (adapter (step schemas w a)) = serviceID (adapter w).
Proof.
  destruct a as [res body uuid|data|ms|sub|sub| |]; simpl.
  - destruct (handle res body uuid w) as [w'|] eqn:Hh; simpl; [|done].
    apply handle_inv in Hh as (m & _ & ->). by rewrite emit_eq.
  - rewrite send_world. destruct (_ && _); [|done]. by rewrite emit_eq.
  - unfold elapse. by destruct (fire_identity
      (filter (fun tm => is_due (now w + ms) tm = true) (timers w))
      {| adapter := adapter w; now := (now w + ms)%N;
         timers := filter (fun tm => is_due (now w + ms) tm = false) (timers w);
         next_fn := next_fn w; trace := trace w |}) as [_ ->].
  - done.
  - done.
  - unfold connect. destruct (connected (adapter w)); simpl; [done|].
    by destruct (webhookServer (adapter w)).
  - unfold disconnect. simpl. by destruct (webhookServer (adapter w)).
Qed.

Lemma serviceID_run acts : ∀ w,
  serviceID (adapter (run schemas w acts)) = serviceID (adapter w).
Proof.
  induction acts as [|a acts IH]; intros w; [done|].
  by rewrite run_cons, IH, serviceID_step.
Qed.

(** X13: the service ID is fixed by the constructor, the one of the
    options when that is a non-empty string and the generated UUID
    otherwise, and never changes: [serviceId], [connect] and a resolved
    [send] report that same ID at any later time. *)
Theorem serviceID_fixed_at_construction obj u0 acts :
  let w := run schemas (boot obj u0) acts in
  let id := match obj ≫= opt_serviceID with
            | Some s => if bool_decide (s = []) then u0 else s
            | None => u0
            end in
  serviceId (adapter w) = id
  ∧ (connect w).1 = {| info_type := js "connected"; info_serviceID := id |}
  ∧ ∀ data info,
      (send schemas data w).1 = Resolved info →
      info = {| info_type := js "sent"; info_serviceID := id |}.
Proof.
  cbv zeta.
  assert (Hid : serviceID (adapter (run schemas (boot obj u0) acts))
                = or_else (obj ≫= opt_serviceID) u0).
  { by rewrite serviceID_run. }
  unfold or_else in Hid. unfold serviceId. split; [done|]. split.
  - unfold connect, serviceId.
    destruct (connected _); simpl; [by rewrite Hid|].
    destruct (webhookServer _); simpl; by rewrite Hid.
  - intros data info Hres. pose proof Hres as [Hok Hnote]%send_resolved.
    rewrite send_note in Hres by done. simpl in Hres.
    injection Hres as <-. by rewrite Hid.
Qed.

(** X14: [disconnect] clears the flag and closes the webhook server, and
    a [connect] that follows asks the server to listen again: for an
    adapter with a server of its own, disconnecting and connecting adds a
    close and then a listen, and leaves the adapter connected. *)
Theorem reconnect_restarts_server w ws :
  webhookServer (adapter w) = Some ws →
  trace (connect (disconnect w)).2 = trace w ++ [EvServerClose; EvServerListen]
  ∧ connected (adapter (disconnect w)) = false
  ∧ connected (adapter (connect (disconnect w)).2) = true.
Proof.
  intros Hws. unfold connect, disconnect. simpl. rewrite Hws. simpl.
  rewrite Hws. simpl. by rewrite <- app_assoc.
Qed.

(** X16: a reply that comes after the minute is not delivered: when
    60 s have passed after a request without a delivery on its key, the
    listener of that request is never called, whatever is sent to the
    key afterwards. *)
Theorem late_reply_is_dropped obj u0 pre res body uuid w1 acts late :
  let w := run schemas (boot obj u0) pre in
  handle res body uuid w = Some w1 →
  forallb (fun a => negb (delivers schemas uuid a)) acts = true →
  (60000 ≤ elapsed acts)%N →
  calls (ResponseListener (next_fn w) res)
        (trace (run schemas w1 (acts ++ late))) = [].
Proof.
  cbv zeta. intros Hh Hquiet%quiet_Forall Hlong.
  set (w := run schemas (boot obj u0) pre) in *.
  assert (Hwf : wf w) by apply wf_run, wf_boot.
  destruct (handle_awaiting _ _ _ _ _ Hwf Hh) as [Haw Hnone].
  destruct (handle_frame _ _ _ _ _ Hh) as (_ & _ & Hnow & _).
  destruct (awaiting_run schemas _ _ _ _ acts _ Haw Hquiet) as (Hcalls & _ & Hleave).
  rewrite run_app.
  destruct (gone_run schemas _ _ late _ (Hleave ltac:(rewrite Hnow; lia))) as [_ ->].
  by rewrite Hcalls.
Qed.

(** X17: in every world the adapter can reach, a response listener that
    is registered is registered as a once-listener, under the channel of
    some request key, and has a pending timer that will remove it from
    that channel: no registration is left without its clean-up. *)
Theorem registered_listener_has_timer obj u0 acts name e fn res :
  let w := run schemas (boot obj u0) acts in
  e ∈ listeners name w →
  e_fn e = ResponseListener fn res →
  e_once e = true
  ∧ (∃ uuid, name = response_channel uuid)
  ∧ ∃ tm, tm ∈ timers w ∧ t_name tm = name ∧ t_fn tm = ResponseListener fn res
          ∧ (now w < due tm ≤ now w + 60000)%N.
Proof.
  cbv zeta. intros He Hfn.
  set (w := run schemas (boot obj u0) acts) in *.
  assert (Hwf : wf w) by apply wf_run, wf_boot.
  assert (Htr : tracked w) by (apply tracked_run; [apply wf_boot|apply tracked_boot]).
  pose proof (wf_listeners _ Hwf _ _ _ _ He Hfn) as Hold.
  assert (Hmine : e ∈ mine (ResponseListener fn res) (listeners name w)).
  { apply list_elem_of_filter. done. }
  destruct (Htr fn res Hold) as [[Hg _]|(uuid & T & Haw & HT & _)].
  { rewrite (gone_nowhere _ _ _ Hg name) in Hmine. by apply elem_of_nil in Hmine. }
  destruct (decide (name = response_channel uuid)) as [->|Hname].
  2:{ rewrite (aw_else _ _ _ _ _ Haw name Hname) in Hmine.
      by apply elem_of_nil in Hmine. }
  rewrite (aw_here _ _ _ _ _ Haw) in Hmine.
  apply list_elem_of_singleton in Hmine as ->.
  split; [done|]. split; [by exists uuid|].
  eexists. split; [apply (aw_timer _ _ _ _ _ Haw)|]. simpl.
  split; [done|]. split; [done|].
  pose proof (aw_clock _ _ _ _ _ Haw). lia.
Qed.

End More.

(** ** Worked inputs for the further properties *)

Lemma handler_event_fields_witness :
  let w' := default fresh_world (handle 7 hello_body (js "k1") fresh_world) in
  handle 7 hello_body (js "k1") fresh_world = Some w'
  ∧ ∃ m,
      let request := get hello_body (js "request") in
      let session := get hello_body (js "session") in
      let found := path [js "intent"; js "slots"] request in
      emitted (trace w') = emitted (trace fresh_world) ++ [(js "message", PMessage m)]
      ∧ messageID m = js "k1"
      ∧ requestType m = get request (js "type")
      ∧ application m = get session (js "application")
      ∧ user m = get session (js "user")
      ∧ slots m = (if truthy found then found else VObj [])
      ∧ (nullish (get request (js "intent")) = true → slots m = VObj []).
Proof.
  cbv zeta. split; [vm_compute; reflexivity|].
  apply (handler_event_fields 7 hello_body (js "k1") fresh_world).
  vm_compute; reflexivity.
Defined.

Lemma send_card_witness :
  let data := command "k1" "Note" "hello" in
  let info := {| info_type := js "sent"; info_serviceID := js "svc" |} in
  (send accept_all data fresh_world).1 = Resolved info
  ∧ ∃ r,
      info = {| info_type := js "sent";
                info_serviceID := serviceID (adapter fresh_world) |}
      ∧ emitted (trace (send accept_all data fresh_world).2)
        = emitted (trace fresh_world)
          ++ [(response_channel (to_id data), PResponse r)]
      ∧ card_content (card r) = object_content data
      ∧ card_title (card r) = default [] (object_name data).
Proof.
  cbv zeta. split; [vm_compute; reflexivity|].
  apply (send_card accept_all (command "k1" "Note" "hello") fresh_world).
  vm_compute; reflexivity.
Defined.

Lemma send_unmatched_witness :
  let data := command "k9" "Note" "hello" in
  accept_all data (js "send") = None
  ∧ object_type data = js "Note"
  ∧ listeners (response_channel (to_id data)) fresh_world = []
  ∧ (send accept_all data fresh_world).1
    = Resolved {| info_type := js "sent";
                  info_serviceID := serviceID (adapter fresh_world) |}
  ∧ trace (send accept_all data fresh_world).2
    = trace fresh_world ++ [EvEmit (response_channel (to_id data))
                                   (PResponse (build_response data))]
  ∧ (∀ name, listeners name (send accept_all data fresh_world).2
             = listeners name fresh_world)
  ∧ timers (send accept_all data fresh_world).2 = timers fresh_world.
Proof.
  cbv zeta.
  split; [vm_compute; reflexivity|]. split; [vm_compute; reflexivity|].
  split; [vm_compute; reflexivity|].
  apply (send_unmatched accept_all (command "k9" "Note" "hello") fresh_world);
    vm_compute; reflexivity.
Defined.

Lemma handler_notifies_subscribers_witness :
  let w := run accept_all fresh_world [Subscribe 0] in
  let w' := default w (handle 7 hello_body (js "k1") w) in
  handle 7 hello_body (js "k1") w = Some w'
  ∧ ∃ m,
      normalize hello_body (js "k1") = Some m
      ∧ (∀ l, calls l (trace w')
              = calls l (trace w)
                ++ replicate (length (mine l (listeners (js "message") w)))
                             (PMessage m))
      ∧ (∀ sub, {| e_fn := Subscriber sub; e_once := false |}
                ∈ listeners (js "message") w →
                {| e_fn := Subscriber sub; e_once := false |}
                ∈ listeners (js "message") w')
      ∧ (listeners (js "message") w = [] →
         trace w'
         = trace w ++ [EvEmit (js "message") (PMessage m);
                       EvOnce (response_channel (js "k1"))
                              (ResponseListener (next_fn w) 7);
                       EvSetTimeout 60000 (response_channel (js "k1"))
                                    (ResponseListener (next_fn w) 7);
                       EvSendStatus 7 200]).
Proof.
  cbv zeta. split; [vm_compute; reflexivity|].
  apply (handler_notifies_subscribers 7 hello_body (js "k1")
           (run accept_all fresh_world [Subscribe 0])).
  vm_compute; reflexivity.
Defined.

Lemma no_response_listener_outlives_its_minute_witness :
  let pre := [Subscribe 0; Request 7 hello_body (js "k1")] in
  let acts := [Send (command "k2" "Note" "hello"); Elapse 60000] in
  let w := run accept_all (run accept_all (boot None (js "svc")) pre) acts in
  let e := {| e_fn := Subscriber 0; e_once := false |} in
  forallb (fun a => negb (is_request a)) acts = true
  ∧ (60000 ≤ elapsed acts)%N
  ∧ e ∈ listeners (js "message") w
  ∧ ∃ sub, e_fn e = Subscriber sub.
Proof.
  cbv zeta.
  assert (Hin : {| e_fn := Subscriber 0; e_once := false |}
                ∈ listeners (js "message")
                    (run accept_all
                       (run accept_all (boot None (js "svc"))
                          [Subscribe 0; Request 7 hello_body (js "k1")])
                       [Send (command "k2" "Note" "hello"); Elapse 60000])).
  { vm_compute. constructor. }
  split; [vm_compute; reflexivity|]. split; [vm_compute; discriminate|].
  split; [exact Hin|].
  apply (no_response_listener_outlives_its_minute accept_all None (js "svc")
           [Subscribe 0; Request 7 hello_body (js "k1")]
           [Send (command "k2" "Note" "hello"); Elapse 60000]
           (js "message") {| e_fn := Subscriber 0; e_once := false |});
    [vm_compute; reflexivity|vm_compute; discriminate|exact Hin].
Defined.

Lemma delivery_leaves_timer_pending_witness :
  let w := run accept_all (boot None (js "svc")) [] in
  let w1 := default w (handle 7 hello_body (js "k1") w) in
  let acts1 := [Elapse 59999] in
  let data := command "k1" "Note" "hello" in
  handle 7 hello_body (js "k1") w = Some w1
  ∧ forallb (fun a => negb (delivers accept_all (js "k1") a)) acts1 = true
  ∧ (elapsed acts1 < 60000)%N
  ∧ delivers accept_all (js "k1") (Send data) = true
  ∧ {| due := (now w + 60000)%N; t_name := response_channel (js "k1");
       t_fn := ResponseListener (next_fn w) 7 |}
    ∈ timers (run accept_all w1 (acts1 ++ [Send data])).
Proof.
  cbv zeta.
  split; [vm_compute; reflexivity|]. split; [vm_compute; reflexivity|].
  split; [vm_compute; reflexivity|]. split; [vm_compute; reflexivity|].
  apply (delivery_leaves_timer_pending accept_all None (js "svc") [] 7
           hello_body (js "k1"));
    vm_compute; reflexivity.
Defined.

Lemma reconnect_restarts_server_witness :
  let ws := {| ws_options := {| host := js "0.0.0.0"; port := 8080 |};
               ws_router := setupRouter; ws_logLevel := js "info" |} in
  webhookServer (adapter served_world) = Some ws
  ∧ trace (connect (disconnect served_world)).2
    = trace served_world ++ [EvServerClose; EvServerListen]
  ∧ connected (adapter (disconnect served_world)) = false
  ∧ connected (adapter (connect (disconnect served_world)).2) = true.
Proof.
  cbv zeta. split; [vm_compute; reflexivity|].
  apply (reconnect_restarts_server served_world
           {| ws_options := {| host := js "0.0.0.0"; port := 8080 |};
              ws_router := setupRouter; ws_logLevel := js "info" |}).
  vm_compute; reflexivity.
Defined.

Lemma reply_follows_acknowledgement_witness :
  let w1 := default fresh_world (handle 7 hello_body (js "k1") fresh_world) in
  let data := command "k1" "Note" "hello" in
  handle 7 hello_body (js "k1") fresh_world = Some w1
  ∧ delivers accept_all (js "k1") (Send data) = true
  ∧ ∃ t1 t2,
      trace (step accept_all w1 (Send data))
      = t1 ++ EvSendStatus 7 200
           :: t2 ++ [EvJson 7 (PResponse (build_response data))].
Proof.
  cbv zeta.
  split; [vm_compute; reflexivity|]. split; [vm_compute; reflexivity|].
  apply (reply_follows_acknowledgement accept_all 7 hello_body (js "k1")
           fresh_world);
    vm_compute; reflexivity.
Defined.

Lemma late_reply_is_dropped_witness :
  let w := run accept_all (boot None (js "svc")) [] in
  let w1 := default w (handle 7 hello_body (js "k1") w) in
  let acts := [Elapse 60000] in
  let late := [Send (command "k1" "Note" "too late")] in
  handle 7 hello_body (js "k1") w = Some w1
  ∧ forallb (fun a => negb (delivers accept_all (js "k1") a)) acts = true
  ∧ (60000 ≤ elapsed acts)%N
  ∧ calls (ResponseListener (next_fn w) 7)
          (trace (run accept_all w1 (acts ++ late))) = [].
Proof.
  cbv zeta.
  split; [vm_compute; reflexivity|]. split; [vm_compute; reflexivity|].
  split; [vm_compute; discriminate|].
  apply (late_reply_is_dropped accept_all None (js "svc") [] 7 hello_body (js "k1"));
    [vm_compute; reflexivity|vm_compute; reflexivity|vm_compute; discriminate].
Defined.

Lemma registered_listener_has_timer_witness :
  let w := run accept_all (boot None (js "svc")) [Request 7 hello_body (js "k1")] in
  let e := {| e_fn := ResponseListener 0 7; e_once := true |} in
  e ∈ listeners (response_channel (js "k1")) w
  ∧ e_fn e = ResponseListener 0 7
  ∧ e_once e = true
  ∧ (∃ uuid, response_channel (js "k1") = response_channel uuid)
  ∧ ∃ tm, tm ∈ timers w ∧ t_name tm = response_channel (js "k1")
          ∧ t_fn tm = ResponseListener 0 7
          ∧ (now w < due tm ≤ now w + 60000)%N.
Proof.
  cbv zeta.
  assert (Hin : {| e_fn := ResponseListener 0 7; e_once := true |}
                ∈ listeners (response_channel (js "k1"))
                    (run accept_all (boot None (js "svc"))
                       [Request 7 hello_body (js "k1")])).
  { vm_compute. constructor. }
  split; [exact Hin|]. split; [reflexivity|].
  apply (registered_listener_has_timer accept_all None (js "svc")
           [Request 7 hello_body (js "k1")] (response_channel (js "k1"))
           {| e_fn := ResponseListener 0 7; e_once := true |} 0 7);
    [exact Hin|reflexivity].
Defined.
